(** * A blog on Django: the data model of [apps/blog/models.py] and the
      account forms of [apps/accounts/forms.py]

    The tables are lists of rows in storage order.  Every operation is a
    function from a store to a result: either the store it leaves, or the
    error it raises, in which case the surrounding transaction keeps the
    store it started from.

    Text is [string]; one [ascii] stands for one character (code points
    below 256).  Primary keys are [N], timestamps and vote values are [Z]
    (Python integers do not wrap).  The nested-set columns that django-mptt
    adds to [Category] and [Comment] (lft, rght, tree_id, level) and the
    tags of django-taggit are not declared in the source and are left out. *)

From Stdlib Require Import List ZArith NArith Bool String Ascii Lia.
From Stdlib Require Import Permutation Sorted.
From Stdlib Require Import Decimal DecimalNat DecimalString.
Import ListNotations.

Local Open Scope string_scope.
Local Open Scope list_scope.
Local Open Scope Z_scope.

(** ** Errors and results *)

(** The spec's taxonomy.  [ConflictError] is the violation of a uniqueness
    constraint, [ReferentialError] is what [on_delete=PROTECT] raises,
    [IntegrityError] is a dangling foreign key found by the datastore. *)
Inductive Error : Type :=
| ValidationError
| ConflictError
| ReferentialError
| IntegrityError.

Inductive result (A : Type) : Type :=
| Ok (a : A)
| Err (e : Error).

Arguments Ok {A} a.
Arguments Err {A} e.

Definition bind {A B : Type} (r : result A) (k : A -> result B) : result B :=
  match r with
  | Ok a => k a
  | Err e => Err e
  end.

Notation "x <- r ;; k" := (bind r (fun x => k))
  (at level 61, r at next level, right associativity).

Definition is_ok {A : Type} (r : result A) : bool :=
  match r with Ok _ => true | Err _ => false end.

(** ** Rows *)

Module User.
  (** django.contrib.auth.models.User, the fields the repository uses. *)
Record t : Type := mk {
    pk : N;
    username : string;
    password : string;
    email : string;
    first_name : string;
    last_name : string
  }.
End User.

Module Profile.
  (** Modelled from the spec: the Profile model of apps/accounts/models.py
      is not among the sources; the spec gives {user reference
      (one-to-one), birth_date, bio, avatar image reference}.  An empty
      [avatar] is a file field with no file. *)
Record t : Type := mk {
    user : N;
    birth_date : option Z;
    bio : string;
    avatar : string
  }.
End Profile.

Module Category.
Record t : Type := mk {
    pk : N;
    title : string;
    slug : string;
    description : string;
    parent : option N
  }.
End Category.

Module Post.
  (** [pk] is [None] on an instance that was never saved. *)
Record t : Type := mk {
    pk : option N;
    title : string;
    slug : string;
    description : string;
    category : N;
    text : string;
    thumbnail : string;
    status : string;
    create : Z;
    update : Z;
    author : N;
    updater : option N;
    fixed : bool
  }.

Definition has_pk (n : N) (p : t) : bool :=
    match pk p with
    | Some m => N.eqb m n
    | None => false
    end.
End Post.

Module Comment.
Record t : Type := mk {
    pk : N;
    post : N;
    author : N;
    content : string;
    time_create : Z;
    time_update : Z;
    status : string;
    parent : option N
  }.
End Comment.

Module Rating.
Record t : Type := mk {
    pk : N;
    post : N;
    user : option N;
    value : Z;
    time_create : Z;
    ip_address : string
  }.

  (** [choices=[(1, ...), (-1, ...)]] *)
Definition value_choices : list Z := [1; -1].
End Rating.

(** ** The store *)

Record Store : Type := mkStore {
  users : list User.t;
  profiles : list Profile.t;
  categories : list Category.t;
  posts : list Post.t;
  comments : list Comment.t;
  ratings : list Rating.t
}.

(** What a caller observes after an operation: a raised error leaves the
    store as it was. *)
Definition commit (s : Store) (r : result Store) : Store :=
  match r with
  | Ok s' => s'
  | Err _ => s
  end.

Definition opt_N_eqb (a : option N) (b : N) : bool :=
  match a with
  | Some n => N.eqb n b
  | None => false
  end.

Definition fresh_pk (used : list N) : N :=
  N.succ (fold_right N.max 0%N used).

(** ** ORDER BY *)

Section OrderBy.
Context {A : Type}.
Variable before : A -> A -> bool.

Fixpoint insert_row (x : A) (l : list A) : list A :=
    match l with
    | [] => [x]
    | y :: t => if before x y then x :: y :: t else y :: insert_row x t
    end.

Definition order_by (l : list A) : list A :=
    fold_right insert_row [] l.
End OrderBy.

(** ** Rating ledger: [Post.get_sum_rating] *)

(** [ordering = ('-time_create',)] *)
Definition Rating_before (a b : Rating.t) : bool :=
  Rating.time_create b <=? Rating.time_create a.

(** [self.ratings.all()]: the related manager of [Rating.post],
    [related_name='ratings']. *)
Definition Post_ratings_all (s : Store) (post : N) : list Rating.t :=
  order_by Rating_before
    (filter (fun r => N.eqb (Rating.post r) post) (ratings s)).

(** Python's [sum]: a left fold from 0. *)
Definition py_sum (l : list Z) : Z := fold_left Z.add l 0.

(** [sum([rating.value for rating in self.ratings.all()])] *)
Definition Post_get_sum_rating (s : Store) (post : N) : Z :=
  py_sum (map Rating.value (Post_ratings_all s post)).

(** The spec's score: the arithmetic sum of the values of the Ratings
    stored for the post, taken over the table as it is stored. *)
Fixpoint spec_score_of (rs : list Rating.t) (post : N) : Z :=
  match rs with
  | [] => 0
  | r :: t =>
      if N.eqb (Rating.post r) post
      then Rating.value r + spec_score_of t post
      else spec_score_of t post
  end.

(** ** Foreign keys and constraints of the datastore *)

Definition user_exists (s : Store) (n : N) : bool :=
  existsb (fun u => N.eqb (User.pk u) n) (users s).

Definition category_exists (s : Store) (n : N) : bool :=
  existsb (fun c => N.eqb (Category.pk c) n) (categories s).

Definition post_exists (s : Store) (n : N) : bool :=
  existsb (Post.has_pk n) (posts s).

Definition opt_user_exists (s : Store) (u : option N) : bool :=
  match u with
  | Some n => user_exists s n
  | None => true
  end.

Definition same_pair (post : N) (address : string) (r : Rating.t) : bool :=
  N.eqb (Rating.post r) post && String.eqb (Rating.ip_address r) address.

(** [unique_together = ('post', 'ip_address')] *)
Definition Rating_unique_together (rs : list Rating.t) (post : N)
  (ip : string) : bool :=
  negb (existsb (same_pair post ip) rs).

(** Inserting a Rating row: [Rating.objects.create(...)].  The datastore
    checks the uniqueness constraint of [Rating.Meta] and the two foreign
    keys; [time_create] is [auto_now_add]. *)
Definition Rating_create (s : Store) (post : N) (user : option N) (value : Z)
  (ip : string) (now : Z) : result Store :=
  if negb (Rating_unique_together (ratings s) post ip) then Err ConflictError
  else if negb (post_exists s post && opt_user_exists s user)
  then Err IntegrityError
  else
    let row := Rating.mk (fresh_pk (map Rating.pk (ratings s)))
                 post user value now ip in
    Ok (mkStore (users s) (profiles s) (categories s) (posts s)
          (comments s) (ratings s ++ [row])).

(** Field validation of [Rating.value]: the value is one of the choices. *)
Definition Rating_value_valid (v : Z) : bool :=
  existsb (Z.eqb v) Rating.value_choices.

(** Modelled from the spec: cast_vote is the view that records a vote
    (apps/blog/views.py is not among the sources).  The spec: the value
    must be exactly +1 or -1, any other value fails with ValidationError;
    the call fails with ConflictError if (post, address) already has a
    recorded vote; otherwise it inserts a new Rating row. *)
Definition cast_vote (s : Store) (post : N) (address : string) (value : Z)
  (user : option N) (now : Z) : result Store :=
  if negb (Rating_value_valid value) then Err ValidationError
  else Rating_create s post user value address now.

(** The number of Ratings stored for a (post, address) pair. *)
Definition ratings_for (s : Store) (post : N) (address : string) : nat :=
  List.length (filter (same_pair post address) (ratings s)).

(** ** Post repository: [PostManager.get_queryset] *)

(** [ordering = ['-fixed', '-create']] *)
Definition Post_before (a b : Post.t) : bool :=
  if Bool.eqb (Post.fixed a) (Post.fixed b)
  then Post.create b <=? Post.create a
  else Post.fixed a.

(** A row of the joined query: the post with its author and category. *)
Definition JoinedPost : Type := (Post.t * User.t * Category.t)%type.

Definition post_of (j : JoinedPost) : Post.t := fst (fst j).
Definition author_of (j : JoinedPost) : User.t := snd (fst j).
Definition category_of (j : JoinedPost) : Category.t := snd j.

(** [select_related('author', 'category')]: both keys are NOT NULL, so the
    query is an inner join of blog_post with auth_user and
    app_categories. *)
Definition select_related_author_category (s : Store) (ps : list Post.t)
  : list JoinedPost :=
  flat_map
    (fun p =>
       flat_map
         (fun u =>
            map (fun c => (p, u, c))
              (filter (fun c => N.eqb (Category.pk c) (Post.category p))
                 (categories s)))
         (filter (fun u => N.eqb (User.pk u) (Post.author p)) (users s)))
    ps.

Definition is_published (p : Post.t) : bool :=
  String.eqb (Post.status p) "published".

(** [super().get_queryset().select_related('author', 'category')
      .filter(status='published')], evaluated with the ordering of
    [Post.Meta]. *)
Definition PostManager_get_queryset (s : Store) : list JoinedPost :=
  order_by (fun x y => Post_before (post_of x) (post_of y))
    (filter (fun j => is_published (post_of j))
       (select_related_author_category s (posts s))).

(** [Post.custom.all()] *)
Definition list_published (s : Store) : list JoinedPost :=
  PostManager_get_queryset s.

(** Primary keys are unique and every post has its author and category. *)
Definition posts_joinable (s : Store) : Prop :=
  NoDup (map User.pk (users s)) /\
  NoDup (map Category.pk (categories s)) /\
  forall p, In p (posts s) ->
    user_exists s (Post.author p) = true /\
    category_exists s (Post.category p) = true.

(** ** Deletion: the collector of [on_delete] policies *)

Definition mem_N (n : N) (l : list N) : bool := existsb (N.eqb n) l.

Section Cascade.
Context {A : Type}.
Variable pk_of : A -> N.
Variable parent_of : A -> option N.

Definition parent_in (d : list N) (r : A) : bool :=
  match parent_of r with
  | Some p => mem_N p d
  | None => false
  end.

(** One round: the rows whose parent is collected and that are not
    collected yet. *)
Definition cascade_round (rows : list A) (d : list N) : list N :=
  d ++ map pk_of
         (filter (fun r => parent_in d r && negb (mem_N (pk_of r) d)) rows).

Fixpoint cascade_rounds (n : nat) (rows : list A) (d : list N) : list N :=
  match n with
  | O => d
  | S k => cascade_rounds k rows (cascade_round rows d)
  end.

(** The keys collected from [seeds] through a self-referencing
    [on_delete=CASCADE] key: one round per row is enough to close the
    set. *)
Definition cascade (rows : list A) (seeds : list N) : list N :=
  cascade_rounds (List.length rows) rows seeds.

(** A set of keys is closed when it holds every row whose parent it
    holds. *)
Definition cascade_closed (rows : list A) (d : list N) : Prop :=
  forall r, In r rows -> parent_in d r = true -> mem_N (pk_of r) d = true.

Definition not_collected (rows : list A) (d : list N) : nat :=
  List.length (filter (fun r => negb (mem_N (pk_of r) d)) rows).
End Cascade.

(** [Category.delete()]: the subtree goes with the category
    ([parent]: CASCADE); a post that references a collected category stops
    the deletion ([Post.category]: PROTECT). *)
Definition Category_delete (s : Store) (c : N) : result Store :=
  let doomed := cascade Category.pk Category.parent (categories s) [c] in
  if existsb (fun p => mem_N (Post.category p) doomed) (posts s)
  then Err ReferentialError
  else
    Ok (mkStore (users s) (profiles s)
          (filter (fun x => negb (mem_N (Category.pk x) doomed))
             (categories s))
          (posts s) (comments s) (ratings s)).

(** The comments that go with the comments [seeds] ([parent]: CASCADE). *)
Definition doomed_comments (s : Store) (seeds : list Comment.t) : list N :=
  cascade Comment.pk Comment.parent (comments s) (map Comment.pk seeds).

(** [Post.delete()]: [Comment.post] and [Rating.post] are CASCADE; no key
    that points at a post, a comment or a rating protects it. *)
Definition Post_delete (s : Store) (p : N) : Store :=
  let doomed :=
    doomed_comments s
      (filter (fun c => N.eqb (Comment.post c) p) (comments s)) in
  mkStore (users s) (profiles s) (categories s)
    (filter (fun q => negb (Post.has_pk p q)) (posts s))
    (filter (fun c => negb (mem_N (Comment.pk c) doomed)) (comments s))
    (filter (fun r => negb (N.eqb (Rating.post r) p)) (ratings s)).

(** [default=1] of [Post.author] *)
Definition Post_author_default : N := 1%N.

(** The field updates of a user's deletion: [Post.author] is SET_DEFAULT,
    [Post.updater] is SET_NULL. *)
Definition Post_release_user (u : N) (p : Post.t) : Post.t :=
  Post.mk (Post.pk p) (Post.title p) (Post.slug p) (Post.description p)
    (Post.category p) (Post.text p) (Post.thumbnail p) (Post.status p)
    (Post.create p) (Post.update p)
    (if N.eqb (Post.author p) u then Post_author_default else Post.author p)
    (if opt_N_eqb (Post.updater p) u then None else Post.updater p)
    (Post.fixed p).

(** [User.delete()]: [Comment.author] and [Rating.user] are CASCADE, the
    profile goes with its user (the spec: the user is the root owner of
    the Profile), the posts are released as above.  The datastore then
    refuses the deletion when a released post is left with a default
    author that does not exist. *)
Definition User_delete (s : Store) (u : N) : result Store :=
  let doomed :=
    doomed_comments s
      (filter (fun c => N.eqb (Comment.author c) u) (comments s)) in
  let users' := filter (fun x => negb (N.eqb (User.pk x) u)) (users s) in
  if existsb (fun p => N.eqb (Post.author p) u) (posts s)
     && negb (existsb (fun x => N.eqb (User.pk x) Post_author_default) users')
  then Err IntegrityError
  else
    Ok (mkStore users'
          (filter (fun x => negb (N.eqb (Profile.user x) u)) (profiles s))
          (categories s)
          (map (Post_release_user u) (posts s))
          (filter (fun c => negb (mem_N (Comment.pk c) doomed)) (comments s))
          (filter (fun r => negb (opt_N_eqb (Rating.user r) u)) (ratings s))).

(** ** Slug generator and [Post.save] *)

Definition decimal (n : nat) : string :=
  NilEmpty.string_of_uint (Nat.to_uint n).

(** The candidates tried for a token: the token itself, then the token
    with the suffixes -2, -3, ... *)
Definition slug_candidate (base : string) (k : nat) : string :=
  match k with
  | O => base
  | S _ => (base ++ "-" ++ decimal (S k))%string
  end.

(** The first candidate from the [k]-th on that is not taken, with [fuel]
    retries left. *)
Fixpoint first_free (taken : list string) (base : string) (k fuel : nat)
  : option string :=
  let c := slug_candidate base k in
  if negb (existsb (String.eqb c) taken) then Some c
  else
    match fuel with
    | O => None
    | S f => first_free taken base (S k) f
    end.

Definition same_instance (self : option N) (p : Post.t) : bool :=
  match self with
  | Some n => Post.has_pk n p
  | None => false
  end.

(** The slugs of the stored posts other than the instance being saved. *)
Definition other_slugs (ps : list Post.t) (self : option N) : list string :=
  map Post.slug (filter (fun p => negb (same_instance self p)) ps).

Definition Post_set_slug (p : Post.t) (sl : string) : Post.t :=
  Post.mk (Post.pk p) (Post.title p) sl (Post.description p)
    (Post.category p) (Post.text p) (Post.thumbnail p) (Post.status p)
    (Post.create p) (Post.update p) (Post.author p) (Post.updater p)
    (Post.fixed p).

Definition Post_stamp (p : Post.t) (k : option N) (created updated : Z)
  : Post.t :=
  Post.mk k (Post.title p) (Post.slug p) (Post.description p)
    (Post.category p) (Post.text p) (Post.thumbnail p) (Post.status p)
    created updated (Post.author p) (Post.updater p) (Post.fixed p).

Definition Post_fk_ok (s : Store) (p : Post.t) : bool :=
  category_exists s (Post.category p)
  && user_exists s (Post.author p)
  && opt_user_exists s (Post.updater p).

Definition stored_post_pks (s : Store) : list N :=
  flat_map (fun p => match Post.pk p with Some n => [n] | None => [] end)
    (posts s).

Definition with_posts (s : Store) (ps : list Post.t) : Store :=
  mkStore (users s) (profiles s) (categories s) ps (comments s) (ratings s).

(** [super().save()] of a post: [models.Model.save].  An instance without
    a key is inserted under a fresh key; an instance with a key replaces
    the row of that key, or is inserted when there is none.  [create] is
    [auto_now_add], [update] is [auto_now].  The table declares no
    constraint on [slug]: the field is [SlugField(max_length=255,
    blank=True)]. *)
Definition Model_save_post (s : Store) (p : Post.t) (now : Z)
  : result Store :=
  if negb (Post_fk_ok s p) then Err IntegrityError
  else
    match Post.pk p with
    | None =>
        Ok (with_posts s
              (posts s ++
               [Post_stamp p (Some (fresh_pk (stored_post_pks s))) now now]))
    | Some n =>
        if post_exists s n
        then
          Ok (with_posts s
                (map (fun q =>
                        if Post.has_pk n q
                        then Post_stamp p (Some n) (Post.create p) now
                        else q)
                   (posts s)))
        else Ok (with_posts s (posts s ++ [Post_stamp p (Some n) now now]))
    end.

Section SlugGenerator.
(** The normaliser of titles (lowercase, transliteration, separators) is
    the framework's; the store never looks inside its result. *)
Variable slugify : string -> string.

(** Modelled from the spec: unique_slugify of apps/services/utils.py is
    not among the sources.  The spec: normalize the title into a URL-safe
    token; if the token collides with the slug of an existing record
    (excluding the record being updated), append a disambiguating suffix
    and retry until unique; retries are bounded, and ValidationError
    surfaces only when they are exhausted.  The arguments are those of the
    call in [Post.save]: the instance (its key), the title and the
    pre-existing slug; the spec's algorithm starts from the title. *)
Definition unique_slugify (ps : list Post.t) (self : option N)
  (title slug : string) : result string :=
  let taken := other_slugs ps self in
  match first_free taken (slugify title) 0 (List.length taken) with
  | Some c => Ok c
  | None => Err ValidationError
  end.

(** [self.slug = unique_slugify(self, self.title, self.slug)] then
    [super().save()]. *)
Definition Post_save (s : Store) (p : Post.t) (now : Z) : result Store :=
  sl <- unique_slugify (posts s) (Post.pk p) (Post.title p) (Post.slug p) ;;
  Model_save_post s (Post_set_slug p sl) now.
End SlugGenerator.

(** Stored posts have keys, the keys are pairwise distinct and so are the
    slugs. *)
Definition slugs_distinct (s : Store) : Prop :=
  NoDup (map Post.slug (posts s)).

Definition post_keys_ok (s : Store) : Prop :=
  (forall p, In p (posts s) -> Post.pk p <> None) /\
  NoDup (map Post.pk (posts s)).

Definition posts_ok (s : Store) : Prop := post_keys_ok s /\ slugs_distinct s.

(** ** Form fields *)

(** [str.isspace] on the characters below 256. *)
Definition py_isspace (c : ascii) : bool :=
  let n := nat_of_ascii c in
  ((9 <=? n) && (n <=? 13) || (28 <=? n) && (n <=? 32)
   || (n =? 133) || (n =? 160))%nat.

Fixpoint lstrip (l : list ascii) : list ascii :=
  match l with
  | [] => []
  | c :: t => if py_isspace c then lstrip t else l
  end.

(** [str.strip()] *)
Definition py_strip (s : string) : string :=
  string_of_list_ascii
    (List.rev (lstrip (List.rev (lstrip (list_ascii_of_string s))))).

(** The validator that prohibits null characters. *)
Definition has_null (v : string) : bool :=
  existsb (Ascii.eqb Ascii.zero) (list_ascii_of_string v).

(** [forms.CharField(max_length=..., required=...)]: the value is
    stripped; an empty value is refused when the field is required; the
    validators (no null character, the length) run on a value that is not
    empty. *)
Definition CharField_clean (required : bool) (max_length : option nat)
  (raw : string) : result string :=
  let v := py_strip raw in
  if String.eqb v "" then
    if required then Err ValidationError else Ok ""
  else if has_null v then Err ValidationError
  else
    match max_length with
    | Some n =>
        if (n <? String.length v)%nat then Err ValidationError else Ok v
    | None => Ok v
    end.

(** What the framework and the deployment provide to the forms. *)
Class Framework : Type := {
  (** [django.core.validators.EmailValidator] *)
  validate_email : string -> bool;
  (** the username validator of [django.contrib.auth] *)
  validate_username : string -> bool;
  (** the password validators of the settings *)
  validate_password : string -> bool;
  (** the password hasher *)
  make_password : string -> string;
  (** the file storage: the name under which an upload is kept *)
  storage_save : string -> string
}.

(** An uploaded file as the form sees it: its name, its size, and whether
    the image library and the extension validator accept it. *)
Record UploadedFile : Type := mkUploadedFile {
  file_name : string;
  file_size : N;
  file_is_image : bool
}.

(** The cleaned value of a file field. *)
Inductive FileValue : Type :=
| KeepInitial
| Upload (f : UploadedFile)
| NoFile.

Definition file_given (data : option UploadedFile) : bool :=
  match data with
  | Some f => negb (String.eqb (file_name f) "")
  | None => false
  end.

(** [forms.ImageField.clean(data, initial)]: without data the file the
    instance already has is kept; without data and without such a file a
    required field raises. *)
Definition ImageField_clean (required : bool) (data : option UploadedFile)
  (initial : string) : result FileValue :=
  if negb (file_given data) && negb (String.eqb initial "")
  then Ok KeepInitial
  else
    match data with
    | None => if required then Err ValidationError else Ok NoFile
    | Some f =>
        if String.eqb (file_name f) "" then Err ValidationError
        else if N.eqb (file_size f) 0 then Err ValidationError
        else if negb (file_is_image f) then Err ValidationError
        else Ok (Upload f)
    end.

(** [forms.DateField]: [None] is an empty input. *)
Definition DateField_clean (required : bool) (data : option Z)
  : result (option Z) :=
  match data with
  | None => if required then Err ValidationError else Ok None
  | Some d => Ok (Some d)
  end.

(** [queryset.exists()] *)
Definition exists_row {A : Type} (l : list A) : bool :=
  match l with
  | [] => false
  | _ :: _ => true
  end.

(** ** Account forms *)

Record AccountData : Type := mkAccountData {
  d_username : string;
  d_email : string;
  d_first_name : string;
  d_last_name : string
}.

Record RegisterData : Type := mkRegisterData {
  r_username : string;
  r_password1 : string;
  r_password2 : string;
  r_email : string;
  r_first_name : string;
  r_last_name : string
}.

Record ProfileData : Type := mkProfileData {
  p_birth_date : option Z;
  p_bio : string;
  p_avatar : option UploadedFile
}.

Definition with_users (s : Store) (us : list User.t) : Store :=
  mkStore us (profiles s) (categories s) (posts s) (comments s) (ratings s).

Definition with_profiles (s : Store) (ps : list Profile.t) : Store :=
  mkStore (users s) ps (categories s) (posts s) (comments s) (ratings s).

(** [UserUpdateForm.clean_email]:
    [if email and User.objects.filter(email=email)
                      .exclude(pk=self.instance.pk).exists(): raise] *)
Definition UserUpdateForm_clean_email (us : list User.t) (instance : User.t)
  (email : string) : result string :=
  if negb (String.eqb email "")
     && exists_row
          (filter (fun u => negb (N.eqb (User.pk u) (User.pk instance)))
             (filter (fun u => String.eqb (User.email u) email) us))
  then Err ValidationError
  else Ok email.

(** [UserRegisterForm.clean_email]:
    [if email and User.objects.filter(email=email).exists(): raise] *)
Definition UserRegisterForm_clean_email (us : list User.t) (email : string)
  : result string :=
  if negb (String.eqb email "")
     && exists_row (filter (fun u => String.eqb (User.email u) email) us)
  then Err ValidationError
  else Ok email.

Definition username_taken (us : list User.t) (self : option N)
  (name : string) : bool :=
  exists_row
    (filter (fun u => negb (opt_N_eqb self (User.pk u)))
       (filter (fun u => String.eqb (User.username u) name) us)).

Section Accounts.
Context {fw : Framework}.

(** [forms.EmailField]: a character field whose value, when not empty,
    must pass the e-mail validator. *)
Definition EmailField_clean (required : bool) (max_length : option nat)
  (raw : string) : result string :=
  v <- CharField_clean required max_length raw ;;
  if String.eqb v "" then Ok v
  else if validate_email v then Ok v
  else Err ValidationError.

(** [UserUpdateForm]: the four declared fields, [clean_email], then the
    validation of the model (the username validator and the uniqueness of
    [User.username]).  The form is valid when no field has an error. *)
Definition UserUpdateForm_clean (us : list User.t) (instance : User.t)
  (data : AccountData) : result User.t :=
  match CharField_clean true (Some 100%nat) (d_username data),
        (e <- EmailField_clean true (Some 254%nat) (d_email data) ;;
         UserUpdateForm_clean_email us instance e),
        CharField_clean true (Some 100%nat) (d_first_name data),
        CharField_clean true (Some 100%nat) (d_last_name data)
  with
  | Ok u, Ok e, Ok f, Ok l =>
      if validate_username u
         && negb (username_taken us (Some (User.pk instance)) u)
      then Ok (User.mk (User.pk instance) u (User.password instance) e f l)
      else Err ValidationError
  | _, _, _, _ => Err ValidationError
  end.

(** [UserRegisterForm]: the fields of [UserCreationForm] with email and
    names taken from the model ([blank=True], so not required),
    [clean_email], the two passwords, and the validation of the model. *)
Definition UserRegisterForm_clean (us : list User.t) (data : RegisterData)
  : result (string * string * string * string * string) :=
  match CharField_clean true (Some 150%nat) (r_username data),
        (e <- EmailField_clean false (Some 254%nat) (r_email data) ;;
         UserRegisterForm_clean_email us e),
        CharField_clean false (Some 150%nat) (r_first_name data),
        CharField_clean false (Some 150%nat) (r_last_name data)
  with
  | Ok u, Ok e, Ok f, Ok l =>
      if validate_username u
         && negb (username_taken us None u)
         && negb (String.eqb (r_password1 data) "")
         && String.eqb (r_password1 data) (r_password2 data)
         && validate_password (r_password2 data)
      then Ok (u, r_password1 data, e, f, l)
      else Err ValidationError
  | _, _, _, _ => Err ValidationError
  end.

(** [ProfileUpdateForm]: [birth_date], [bio] (max_length=500) and
    [avatar], all three declared without [required=False]. *)
Definition ProfileUpdateForm_clean (instance : Profile.t) (data : ProfileData)
  : result Profile.t :=
  match DateField_clean true (p_birth_date data),
        CharField_clean true (Some 500%nat) (p_bio data),
        ImageField_clean true (p_avatar data) (Profile.avatar instance)
  with
  | Ok d, Ok b, Ok a =>
      Ok (Profile.mk (Profile.user instance) d b
            match a with
            | Upload f => storage_save (file_name f)
            | KeepInitial | NoFile => Profile.avatar instance
            end)
  | _, _, _ => Err ValidationError
  end.

(** Modelled from the spec: register is the view that validates a
    [UserRegisterForm] and saves it (apps/accounts/views.py and the
    profile signal are not among the sources).  The spec: on success
    creates the identity and an associated empty Profile. *)
Definition register (s : Store) (data : RegisterData) : result Store :=
  c <- UserRegisterForm_clean (users s) data ;;
  let '(u, p, e, f, l) := c in
  let k := fresh_pk (map User.pk (users s)) in
  Ok (mkStore (users s ++ [User.mk k u (make_password p) e f l])
        (profiles s ++ [Profile.mk k None "" ""])
        (categories s) (posts s) (comments s) (ratings s)).

(** Modelled from the spec: update_account validates a [UserUpdateForm]
    bound to the user and saves it. *)
Definition update_account (s : Store) (instance : User.t)
  (data : AccountData) : result Store :=
  row <- UserUpdateForm_clean (users s) instance data ;;
  Ok (with_users s
        (if user_exists s (User.pk instance)
         then map (fun q =>
                     if N.eqb (User.pk q) (User.pk instance) then row else q)
                (users s)
         else users s ++ [row])).

(** Modelled from the spec: update_profile validates a
    [ProfileUpdateForm] bound to the user's profile and saves it. *)
Definition update_profile (s : Store) (instance : Profile.t)
  (data : ProfileData) : result Store :=
  row <- ProfileUpdateForm_clean instance data ;;
  Ok (with_profiles s
        (if existsb (fun q => N.eqb (Profile.user q) (Profile.user instance))
              (profiles s)
         then map (fun q =>
                     if N.eqb (Profile.user q) (Profile.user instance)
                     then row else q)
                (profiles s)
         else profiles s ++ [row])).
End Accounts.

(** ** The operations as steps *)

Section Steps.
Context {fw : Framework}.
Variable slugify : string -> string.

(** One operation of the repository that went through. *)
Inductive step : Store -> Store -> Prop :=
| step_register s data s' :
    register s data = Ok s' -> step s s'
| step_update_account s instance data s' :
    update_account s instance data = Ok s' -> step s s'
| step_update_profile s instance data s' :
    update_profile s instance data = Ok s' -> step s s'
| step_cast_vote s post address value user now s' :
    cast_vote s post address value user now = Ok s' -> step s s'
| step_post_save s p now s' :
    Post_save slugify s p now = Ok s' -> step s s'
| step_post_delete s p :
    step s (Post_delete s p)
| step_user_delete s u s' :
    User_delete s u = Ok s' -> step s s'
| step_category_delete s c s' :
    Category_delete s c = Ok s' -> step s s'.

Inductive reaches (s0 : Store) : Store -> Prop :=
| reaches_here : reaches s0 s0
| reaches_step s s' : reaches s0 s -> step s s' -> reaches s0 s'.
End Steps.

(** At most one Rating per (post, address) pair. *)
Definition one_vote_per_address (s : Store) : Prop :=
  forall post address, (ratings_for s post address <= 1)%nat.

(** The order the spec gives to list_published: fixed descending, then
    creation time descending. *)
Definition fixed_then_recent (p q : Post.t) : Prop :=
  (Post.fixed p = true /\ Post.fixed q = false) \/
  (Post.fixed p = Post.fixed q /\ Post.create q <= Post.create p).

(** ** Subtrees, comments, the default manager *)

Section Subtree.
Context {A : Type}.
Variable pk_of : A -> N.
Variable parent_of : A -> option N.

(** The keys at or below the seeds in the forest of [rows]: a seed, or a
    row whose parent is at or below the seeds. *)
Inductive below (rows : list A) (seeds : list N) : N -> Prop :=
| below_seed n : In n seeds -> below rows seeds n
| below_child r p :
    In r rows -> parent_of r = Some p -> below rows seeds p ->
    below rows seeds (pk_of r).
End Subtree.

(** [Comment.delete()]: the replies go with the comment
    ([parent]: CASCADE); no key that points at a comment protects it. *)
Definition Comment_delete (s : Store) (c : N) : Store :=
  let doomed := cascade Comment.pk Comment.parent (comments s) [c] in
  mkStore (users s) (profiles s) (categories s) (posts s)
    (filter (fun x => negb (mem_N (Comment.pk x) doomed)) (comments s))
    (ratings s).

(** [Post.objects.all()]: [objects = models.Manager()], every post in the
    ordering of [Post.Meta]. *)
Definition Post_objects_all (s : Store) : list Post.t :=
  order_by Post_before (posts s).

(** The sum of the votes a user cast on a post. *)
Definition votes_of_user (s : Store) (u post : N) : Z :=
  spec_score_of (filter (fun r => opt_N_eqb (Rating.user r) u) (ratings s))
    post.

(** The e-mail addresses in use: those of the users that have one. *)
Definition emails_in_use (us : list User.t) : list string :=
  filter (fun e => negb (String.eqb e "")) (map User.email us).

Definition emails_distinct (s : Store) : Prop :=
  NoDup (map User.pk (users s)) /\ NoDup (emails_in_use (users s)).

(** ** Widgets of the account forms *)

(** [widget.attrs]: a dict from attribute names to values, in insertion
    order.  The texts are kept as the bytes of the source file. *)
Definition Attrs : Type := list (string * string).

(** [attrs[k] = v] *)
Fixpoint attrs_set (k v : string) (a : Attrs) : Attrs :=
  match a with
  | [] => [(k, v)]
  | (k', v') :: t =>
      if String.eqb k' k then (k', v) :: t else (k', v') :: attrs_set k v t
  end.

Fixpoint attrs_get (k : string) (a : Attrs) : option string :=
  match a with
  | [] => None
  | (k', v') :: t => if String.eqb k' k then Some v' else attrs_get k t
  end.

(** [attrs.update(upd)] *)
Definition attrs_update (upd : Attrs) (a : Attrs) : Attrs :=
  fold_left (fun acc kv => attrs_set (fst kv) (snd kv) acc) upd a.

(** A form field as the initialisers see it: its label and the attributes
    of its widget. *)
Record FormField : Type := mkFormField {
  label : option string;
  widget_attrs : Attrs
}.

(** [self.fields]: the fields of a form by name, in order. *)
Definition FormFields : Type := list (string * FormField).

(** [self.fields[name]] changed by [f]; [None] is the KeyError of a name
    the form does not have. *)
Fixpoint field_change (name : string) (f : FormField -> FormField)
  (fs : FormFields) : option FormFields :=
  match fs with
  | [] => None
  | (n, fld) :: t =>
      if String.eqb n name then Some ((n, f fld) :: t)
      else
        match field_change name f t with
        | Some t' => Some ((n, fld) :: t')
        | None => None
        end
  end.

Fixpoint field_get (name : string) (fs : FormFields) : option FormField :=
  match fs with
  | [] => None
  | (n, fld) :: t => if String.eqb n name then Some fld else field_get name t
  end.

Definition update_attrs (upd : Attrs) (fld : FormField) : FormField :=
  mkFormField (label fld) (attrs_update upd (widget_attrs fld)).

Definition set_attr (k v : string) (fld : FormField) : FormField :=
  mkFormField (label fld) (attrs_set k v (widget_attrs fld)).

Definition set_label (l : string) (fld : FormField) : FormField :=
  mkFormField (Some l) (widget_attrs fld).

Definition and_then {A B : Type} (o : option A) (k : A -> option B)
  : option B :=
  match o with
  | Some a => k a
  | None => None
  end.

(** The placeholders of [UserRegisterForm.__init__], in the order of the
    source. *)
Definition register_placeholders : list (string * string) :=
  [("username", "Придумайте свой логин");
   ("password1", "Придумайте свой пароль");
   ("password2", "Повторите придуманный пароль");
   ("email", "Введите свой email");
   ("first_name", "Ваше имя");
   ("last_name", "Ваша фамилия")].

Fixpoint set_placeholders (ps : list (string * string)) (fs : FormFields)
  : option FormFields :=
  match ps with
  | [] => Some fs
  | (name, text) :: t =>
      and_then (field_change name (update_attrs [("placeholder", text)]) fs)
        (set_placeholders t)
  end.

(** [UserRegisterForm.__init__] after [super().__init__()], whose fields
    are [fs]: the six placeholders, then for every field of the form
    [attrs.update({"class": "form-control", "autocomplete": "off"})]. *)
Definition UserRegisterForm_init (fs : FormFields) : option FormFields :=
  and_then (set_placeholders register_placeholders fs)
    (fun fs1 =>
       Some (map (fun nf =>
                    (fst nf,
                     update_attrs [("class", "form-control");
                                   ("autocomplete", "off")] (snd nf)))
               fs1)).

(** [UserLoginForm.__init__] after [super().__init__()]. *)
Definition UserLoginForm_init (fs : FormFields) : option FormFields :=
  and_then (field_change "username"
              (set_attr "placeholder" "Логин пользователя") fs)
  (fun fs1 =>
  and_then (field_change "username" (set_attr "class" "form-control") fs1)
  (fun fs2 =>
  and_then (field_change "password"
              (set_attr "placeholder" "Пароль пользователя") fs2)
  (fun fs3 =>
  and_then (field_change "password" (set_attr "class" "form-control") fs3)
  (fun fs4 =>
  field_change "username" (set_label "Логин") fs4)))).

(** ** Sample data *)

Definition alice : User.t := User.mk 1 "alice" "h1" "a@x.com" "Alice" "A".
Definition bob : User.t := User.mk 2 "bob" "h2" "b@x.com" "Bob" "B".
Definition tech : Category.t := Category.mk 1 "Tech" "tech" "" None.
Definition web : Category.t := Category.mk 2 "Web" "web" "" (Some 1%N).

Definition sample_post (k : N) (sl st : string) (created : Z)
  (pinned : bool) : Post.t :=
  Post.mk (Some k) "Tech" sl "" 1 "" "default.jpg" st created created 1
    None pinned.

Definition sample_store : Store :=
  mkStore [alice; bob]
    [Profile.mk 1 None "" ""; Profile.mk 2 (Some 7) "hi" "a.png"]
    [tech; web]
    [sample_post 1 "tech" "published" 10 false;
     sample_post 2 "tech-2" "draft" 20 false;
     sample_post 3 "tech-3" "published" 5 true]
    [Comment.mk 1 1 2 "first" 11 11 "published" None;
     Comment.mk 2 1 1 "reply" 12 12 "published" (Some 1%N);
     Comment.mk 3 3 2 "other" 13 13 "published" None]
    [Rating.mk 1 1 (Some 2%N) 1 30 "1.2.3.4";
     Rating.mk 2 1 None (-1) 31 "5.6.7.8";
     Rating.mk 3 1 (Some 2%N) 1 32 "9.9.9.9"].

(** A sample normaliser: ASCII letters are lowered, digits, hyphens and
    underscores are kept, every other character becomes a hyphen. *)
Definition sample_slugify_char (c : ascii) : ascii :=
  let n := nat_of_ascii c in
  if ((65 <=? n) && (n <=? 90))%nat then ascii_of_nat (n + 32)
  else if ((97 <=? n) && (n <=? 122) || (48 <=? n) && (n <=? 57)
           || (n =? 45) || (n =? 95))%nat then c
  else "-"%char.

Definition sample_slugify (t : string) : string :=
  string_of_list_ascii (map sample_slugify_char (list_ascii_of_string t)).

Definition sample_framework : Framework := {|
  validate_email :=
    fun e => existsb (Ascii.eqb "@"%char) (list_ascii_of_string e);
  validate_username := fun u => negb (String.eqb u "admin");
  validate_password := fun p => (8 <=? String.length p)%nat;
  make_password := fun p => ("hashed:" ++ p)%string;
  storage_save := fun n => ("images/avatars/" ++ n)%string
|}.

(** The sample store before any vote. *)
Definition quiet_store : Store :=
  mkStore (users sample_store) (profiles sample_store)
    (categories sample_store) (posts sample_store) (comments sample_store)
    [].

(** A user registered without an e-mail address, and a second
    registration without one. *)
Definition carol : User.t := User.mk 3 "carol" "h3" "" "" "".

Definition blank_email_store : Store :=
  with_users sample_store [alice; bob; carol].

Definition blank_registration : RegisterData :=
  mkRegisterData "dave" "correct horse" "correct horse" "" "" "".

(** A registration that goes through. *)
Definition new_registration : RegisterData :=
  mkRegisterData "dave" "correct horse" "correct horse" "d@x.com" "Dave" "".

(** A registration with the address of a stored user, typed with blanks
    around it. *)
Definition taken_registration : RegisterData :=
  mkRegisterData "dave" "correct horse" "correct horse" " a@x.com " "" "".

(** A new post with the title and the slug of a stored one. *)
Definition duplicate_post : Post.t :=
  Post.mk None "Tech" "tech" "" 1 "" "default.jpg" "published" 0 0 2 None
    false.

(** A store with a post in a child category and a reply by another
    author. *)
Definition nested_store : Store :=
  mkStore [alice; bob] [] [tech; web]
    [Post.mk (Some 1%N) "Web" "web" "" 2 "" "default.jpg" "published" 1 1 2
       (Some 2%N) false]
    [Comment.mk 1 1 2 "first" 11 11 "published" None;
     Comment.mk 2 1 1 "reply" 12 12 "published" (Some 1%N);
     Comment.mk 3 1 1 "aside" 13 13 "published" None]
    [Rating.mk 1 1 (Some 2%N) 1 30 "1.2.3.4"].

(** The fields of the forms before the initialisers run. *)
Definition plain_field : FormField := mkFormField None [].

Definition register_fields : FormFields :=
  [("username", mkFormField None [("autofocus", "True"); ("class", "x")]);
   ("email", plain_field); ("first_name", plain_field);
   ("last_name", plain_field);
   ("password1", mkFormField None [("autocomplete", "new-password")]);
   ("password2", mkFormField None [("autocomplete", "new-password")])].

Definition login_fields : FormFields :=
  [("username", mkFormField None [("autofocus", "True")]);
   ("password", mkFormField (Some "Password")
                  [("autocomplete", "current-password")]);
   ("recaptcha", plain_field)].

(** * Properties *)

(** ** ORDER BY sorts and permutes *)

Section OrderByFacts.
Context {A : Type}.
Variable before : A -> A -> bool.

Lemma insert_row_perm (x : A) (l : list A) :
  Permutation (insert_row before x l) (x :: l).
Proof.
  induction l as [|y t IH]; simpl.
  - apply Permutation_refl.
  - destruct (before x y).
    + apply Permutation_refl.
    + eapply perm_trans; [apply perm_skip, IH | apply perm_swap].
Qed.

Lemma order_by_perm (l : list A) : Permutation (order_by before l) l.
Proof.
  induction l as [|x t IH]; simpl.
  - constructor.
  - eapply perm_trans; [apply insert_row_perm | apply perm_skip, IH].
Qed.

Lemma order_by_In (l : list A) (x : A) :
  In x (order_by before l) <-> In x l.
Proof.
  split; apply Permutation_in;
    [apply order_by_perm | apply Permutation_sym, order_by_perm].
Qed.

Hypothesis before_total : forall x y, before x y = true \/ before y x = true.
Hypothesis before_trans :
  forall x y z, before x y = true -> before y z = true -> before x z = true.

Lemma insert_row_sorted (x : A) (l : list A) :
  StronglySorted (fun a b => before a b = true) l ->
  StronglySorted (fun a b => before a b = true) (insert_row before x l).
Proof.
  induction 1 as [|y t Hs IH Hall]; simpl.
  - repeat constructor.
  - destruct (before x y) eqn:E.
    + constructor; [constructor; assumption|].
      constructor; [assumption|].
      rewrite Forall_forall in *. intros z Hz.
      apply before_trans with y; auto.
    + constructor; [assumption|].
      rewrite Forall_forall in *. intros z Hz.
      apply (Permutation_in _ (insert_row_perm x t)) in Hz.
      destruct Hz as [<-|Hz]; auto.
      destruct (before_total x y) as [C|C]; congruence.
Qed.

Lemma order_by_sorted (l : list A) :
  StronglySorted (fun a b => before a b = true) (order_by before l).
Proof.
  induction l as [|x t IH]; simpl.
  - constructor.
  - apply insert_row_sorted, IH.
Qed.
End OrderByFacts.

(** ** Rating ledger *)

Lemma fold_left_add_acc (l : list Z) (acc : Z) :
  fold_left Z.add l acc = acc + fold_right Z.add 0 l.
Proof.
  revert acc. induction l as [|x t IH]; intros acc; simpl.
  - lia.
  - rewrite IH. lia.
Qed.

Lemma sum_values_perm (l l' : list Z) :
  Permutation l l' -> fold_right Z.add 0 l = fold_right Z.add 0 l'.
Proof.
  induction 1; simpl; lia.
Qed.

Lemma spec_score_of_filter (rs : list Rating.t) (post : N) :
  spec_score_of rs post =
  fold_right Z.add 0
    (map Rating.value (filter (fun r => N.eqb (Rating.post r) post) rs)).
Proof.
  induction rs as [|r t IH]; simpl; [reflexivity|].
  destruct (N.eqb (Rating.post r) post); simpl; rewrite IH; reflexivity.
Qed.

Lemma get_sum_rating_spec (s : Store) (post : N) :
  Post_get_sum_rating s post = spec_score_of (ratings s) post.
Proof.
  unfold Post_get_sum_rating, py_sum, Post_ratings_all.
  rewrite fold_left_add_acc, spec_score_of_filter. simpl.
  apply sum_values_perm, Permutation_map, order_by_perm.
Qed.

(** C4: the score of a post is the arithmetic sum of the values of the
    Ratings stored for it, in whatever order the query returns them, and
    it is 0 when no Rating is stored for the post. *)
Theorem get_sum_rating_is_sum_of_values (s : Store) (post : N) :
  Post_get_sum_rating s post = spec_score_of (ratings s) post /\
  (filter (fun r => N.eqb (Rating.post r) post) (ratings s) = [] ->
   Post_get_sum_rating s post = 0).
Proof.
  split; [apply get_sum_rating_spec|].
  intros H. rewrite get_sum_rating_spec, spec_score_of_filter, H.
  reflexivity.
Qed.

Lemma get_sum_rating_is_sum_of_values_witness :
  Post_get_sum_rating sample_store 1 = 1 /\
  Post_get_sum_rating sample_store 3 = 0.
Proof.
  split.
  - rewrite (proj1 (get_sum_rating_is_sum_of_values sample_store 1)).
    reflexivity.
  - apply (proj2 (get_sum_rating_is_sum_of_values sample_store 3)).
    reflexivity.
Defined.

(** ** Published posts *)

Lemma Post_before_spec (p q : Post.t) :
  Post_before p q = true <-> fixed_then_recent p q.
Proof.
  unfold Post_before, fixed_then_recent.
  destruct (Post.fixed p), (Post.fixed q); simpl;
    rewrite ?Z.leb_le; intuition (try discriminate; try lia).
Qed.

Lemma Post_before_total (p q : Post.t) :
  Post_before p q = true \/ Post_before q p = true.
Proof.
  unfold Post_before.
  destruct (Post.fixed p), (Post.fixed q); simpl; auto;
    rewrite !Z.leb_le; lia.
Qed.

Lemma Post_before_trans (p q r : Post.t) :
  Post_before p q = true -> Post_before q r = true -> Post_before p r = true.
Proof.
  unfold Post_before.
  destruct (Post.fixed p), (Post.fixed q), (Post.fixed r); simpl;
    rewrite ?Z.leb_le; try discriminate; auto; lia.
Qed.

Section UniqueKey.
Context {A : Type}.
Variable key : A -> N.

Lemma filter_key_none (l : list A) (n : N) :
  ~ In n (map key l) -> filter (fun x => N.eqb (key x) n) l = [].
Proof.
  induction l as [|x t IH]; simpl; intros H; [reflexivity|].
  destruct (N.eqb_spec (key x) n) as [E|E].
  - exfalso. apply H. left. exact E.
  - apply IH. intros C. apply H. right. exact C.
Qed.

Lemma filter_key_unique (l : list A) (n : N) :
  NoDup (map key l) ->
  existsb (fun x => N.eqb (key x) n) l = true ->
  exists x, filter (fun x => N.eqb (key x) n) l = [x] /\ In x l /\ key x = n.
Proof.
  induction l as [|x t IH]; simpl; intros Hnd Hex; [discriminate|].
  inversion Hnd as [|? ? Hnotin Hnd']; subst.
  destruct (N.eqb_spec (key x) n) as [E|E].
  - exists x. rewrite filter_key_none by (rewrite <- E; exact Hnotin).
    auto.
  - simpl in Hex. destruct (IH Hnd' Hex) as (y & Hf & Hin & Hk).
    exists y. auto.
Qed.
End UniqueKey.

Lemma select_related_one_row (s : Store) (ps : list Post.t) :
  posts_joinable s ->
  (forall p, In p ps -> In p (posts s)) ->
  map post_of (select_related_author_category s ps) = ps /\
  forall j, In j (select_related_author_category s ps) ->
    In (author_of j) (users s) /\
    User.pk (author_of j) = Post.author (post_of j) /\
    In (category_of j) (categories s) /\
    Category.pk (category_of j) = Post.category (post_of j).
Proof.
  intros (Hu & Hc & Hfk) Hsub.
  induction ps as [|p t IH]; simpl.
  - split; [reflexivity | intros j []].
  - destruct IH as [IHm IHj]; [intros q Hq; apply Hsub; right; exact Hq|].
    destruct (Hfk p (Hsub p (or_introl eq_refl))) as [Ha Hcat].
    destruct (filter_key_unique User.pk (users s) (Post.author p) Hu Ha)
      as (u & Eu & Hinu & Hku).
    destruct (filter_key_unique Category.pk (categories s)
                (Post.category p) Hc Hcat) as (c & Ec & Hinc & Hkc).
    rewrite Eu, Ec. simpl. split.
    + f_equal. exact IHm.
    + intros j [<-|Hj]; [simpl; auto | apply IHj, Hj].
Qed.

Lemma filter_map_post_of (l : list JoinedPost) :
  map post_of (filter (fun j => is_published (post_of j)) l) =
  filter is_published (map post_of l).
Proof.
  induction l as [|j t IH]; simpl; [reflexivity|].
  destruct (is_published (post_of j)); simpl; rewrite IH; reflexivity.
Qed.

Lemma sorted_app_later {A : Type} (R : A -> A -> Prop)
  (l1 : list A) (a : A) (l2 : list A) :
  StronglySorted R (l1 ++ a :: l2) -> forall b, In b l2 -> R a b.
Proof.
  induction l1 as [|x t IH]; simpl; intros H b Hb.
  - inversion H as [|? ? _ Hall]; subst.
    rewrite Forall_forall in Hall. apply Hall, Hb.
  - inversion H; subst. eapply IH; eauto.
Qed.

Lemma list_published_on_joinable (s : Store) (H : posts_joinable s) :
  Permutation (map post_of (list_published s))
    (filter is_published (posts s)) /\
  (forall p, In p (posts s) -> Post.status p = "draft" ->
     ~ In p (map post_of (list_published s))) /\
  (forall j, In j (list_published s) ->
     Post.status (post_of j) = "published" /\
     In (author_of j) (users s) /\
     User.pk (author_of j) = Post.author (post_of j) /\
     In (category_of j) (categories s) /\
     Category.pk (category_of j) = Post.category (post_of j)) /\
  StronglySorted fixed_then_recent (map post_of (list_published s)) /\
  (forall l1 a l2 b l3,
     map post_of (list_published s) = l1 ++ a :: l2 ++ b :: l3 ->
     Post.fixed b = true -> Post.fixed a = true).
Proof.
  destruct (select_related_one_row s (posts s) H (fun _ h => h))
    as [Hmap Hrows].
  set (cmp := fun x y : JoinedPost => Post_before (post_of x) (post_of y)).
  assert (Hperm : Permutation (map post_of (list_published s))
                    (filter is_published (posts s))).
  { unfold list_published, PostManager_get_queryset.
    eapply perm_trans; [apply Permutation_map, order_by_perm|].
    rewrite filter_map_post_of, Hmap. apply Permutation_refl. }
  assert (Hsorted : StronglySorted fixed_then_recent
                      (map post_of (list_published s))).
  { unfold list_published, PostManager_get_queryset.
    assert (Hs := order_by_sorted cmp
              (fun x y => Post_before_total (post_of x) (post_of y))
              (fun x y z => Post_before_trans (post_of x) (post_of y)
                              (post_of z))
              (filter (fun j => is_published (post_of j))
                 (select_related_author_category s (posts s)))).
    fold cmp. induction Hs as [|j t Hs IH Hall]; simpl; constructor.
    - exact IH.
    - rewrite Forall_forall in *. intros q Hq.
      apply in_map_iff in Hq. destruct Hq as (j' & <- & Hj').
      apply Post_before_spec, (Hall j' Hj'). }
  split; [exact Hperm|]. split; [|split; [|split; [exact Hsorted|]]].
  - intros p _ Hd Hin.
    apply (Permutation_in _ Hperm), filter_In in Hin.
    destruct Hin as [_ Hp]. unfold is_published in Hp.
    rewrite Hd in Hp. discriminate.
  - intros j Hj. unfold list_published, PostManager_get_queryset in Hj.
    apply order_by_In, filter_In in Hj. destruct Hj as [Hj Hp].
    split; [apply String.eqb_eq, Hp | apply Hrows, Hj].
  - intros l1 a l2 b l3 E Hb. rewrite E in Hsorted.
    assert (R : fixed_then_recent a b).
    { apply (sorted_app_later _ _ _ _ Hsorted), in_or_app.
      right. left. reflexivity. }
    destruct R as [[Ha _]|[Ha _]]; congruence.
Qed.

(** ** Casting votes *)

Lemma Rating_value_valid_spec (v : Z) :
  Rating_value_valid v = true <-> v = 1 \/ v = -1.
Proof.
  unfold Rating_value_valid, Rating.value_choices. simpl.
  rewrite !orb_true_iff, !Z.eqb_eq. intuition discriminate.
Qed.

Lemma existsb_filter_nil {A : Type} (f : A -> bool) (l : list A) :
  existsb f l = false <-> filter f l = [].
Proof.
  induction l as [|x t IH]; simpl; [tauto|].
  destruct (f x); simpl; [split; discriminate | exact IH].
Qed.

Lemma cast_vote_inv (s : Store) (post : N) (address : string) (v : Z)
  (u : option N) (now : Z) (s' : Store) :
  cast_vote s post address v u now = Ok s' ->
  Rating_value_valid v = true /\
  filter (same_pair post address) (ratings s) = [] /\
  s' = mkStore (users s) (profiles s) (categories s) (posts s) (comments s)
         (ratings s ++
          [Rating.mk (fresh_pk (map Rating.pk (ratings s))) post u v now
             address]).
Proof.
  unfold cast_vote, Rating_create, Rating_unique_together.
  destruct (Rating_value_valid v); simpl; [|discriminate].
  destruct (existsb _ (ratings s)) eqn:E; simpl; [discriminate|].
  destruct (post_exists s post && opt_user_exists s u); simpl;
    [|discriminate].
  intros [= <-]. split; [reflexivity|]. split; [|reflexivity].
  apply existsb_filter_nil, E.
Qed.

Lemma count_pair_app (rs : list Rating.t) (r : Rating.t) (post : N)
  (address : string) :
  List.length (filter (same_pair post address) (rs ++ [r])) =
  (List.length (filter (same_pair post address) rs)
   + if same_pair post address r then 1 else 0)%nat.
Proof.
  rewrite filter_app, length_app. simpl.
  destruct (same_pair post address r); reflexivity.
Qed.

Lemma spec_score_of_app (rs : list Rating.t) (r : Rating.t) (post : N) :
  spec_score_of (rs ++ [r]) post =
  spec_score_of rs post
  + if N.eqb (Rating.post r) post then Rating.value r else 0.
Proof.
  induction rs as [|x t IH]; simpl.
  - destruct (N.eqb (Rating.post r) post); lia.
  - rewrite IH. destruct (N.eqb (Rating.post x) post); lia.
Qed.

Lemma cast_vote_keeps_one_vote (s : Store) (post : N) (address : string)
  (v : Z) (u : option N) (now : Z) (s' : Store) :
  one_vote_per_address s ->
  cast_vote s post address v u now = Ok s' ->
  one_vote_per_address s'.
Proof.
  intros Hinv H p a. apply cast_vote_inv in H.
  destruct H as (_ & Hfree & ->).
  unfold ratings_for. simpl. rewrite count_pair_app.
  specialize (Hinv p a). unfold ratings_for in Hinv.
  destruct (same_pair p a _) eqn:E; [|lia].
  unfold same_pair in E. simpl in E.
  apply andb_true_iff in E. destruct E as [E1 E2].
  apply N.eqb_eq in E1. apply String.eqb_eq in E2. subst p a.
  rewrite Hfree. simpl. lia.
Qed.

(** C7: a vote whose value is neither +1 nor -1 fails with
    ValidationError and stores nothing; the values that pass the
    validation are exactly +1 and -1. *)
Theorem cast_vote_rejects_other_values (s : Store) (post : N)
  (address : string) (value : Z) (user : option N) (now : Z) :
  (Rating_value_valid value = true <-> value = 1 \/ value = -1) /\
  (value <> 1 -> value <> -1 ->
   cast_vote s post address value user now = Err ValidationError /\
   commit s (cast_vote s post address value user now) = s).
Proof.
  split; [apply Rating_value_valid_spec|].
  intros H1 H2.
  assert (E : Rating_value_valid value = false).
  { destruct (Rating_value_valid value) eqn:E; [|reflexivity].
    apply Rating_value_valid_spec in E. tauto. }
  unfold cast_vote. rewrite E. simpl. split; reflexivity.
Qed.

Lemma cast_vote_rejects_other_values_witness :
  cast_vote sample_store 3 "1.2.3.4" 5 None 40 = Err ValidationError /\
  commit sample_store (cast_vote sample_store 3 "1.2.3.4" 5 None 40)
  = sample_store.
Proof.
  apply (proj2 (cast_vote_rejects_other_values sample_store 3 "1.2.3.4" 5
                  None 40)); lia.
Defined.

(** ** The collector *)

Lemma mem_N_In (n : N) (l : list N) : mem_N n l = true <-> In n l.
Proof.
  unfold mem_N. rewrite existsb_exists. split.
  - intros (x & Hx & E). apply N.eqb_eq in E. subst. exact Hx.
  - intros H. exists n. split; [exact H | apply N.eqb_refl].
Qed.

Lemma filter_length_lt {A : Type} (f g : A -> bool) (l : list A) (x : A) :
  (forall y, g y = true -> f y = true) ->
  In x l -> f x = true -> g x = false ->
  (List.length (filter g l) < List.length (filter f l))%nat.
Proof.
  intros Hgf. induction l as [|y t IH]; simpl; intros Hin Hf Hg; [tauto|].
  assert (Hle : (List.length (filter g t) <= List.length (filter f t))%nat).
  { clear -Hgf. induction t as [|z t IH]; simpl; [lia|].
    destruct (g z) eqn:Eg.
    - rewrite (Hgf z Eg). simpl. lia.
    - destruct (f z); simpl; lia. }
  destruct Hin as [->|Hin].
  - rewrite Hf, Hg. simpl. lia.
  - specialize (IH Hin Hf Hg). destruct (g y) eqn:Eg.
    + rewrite (Hgf y Eg). simpl. lia.
    + destruct (f y); simpl; lia.
Qed.

Section CascadeFacts.
Context {A : Type}.
Variable pk_of : A -> N.
Variable parent_of : A -> option N.
Variable rows : list A.

Lemma cascade_round_incl (d : list N) (x : N) :
  In x d -> In x (cascade_round pk_of parent_of rows d).
Proof. intros H. apply in_or_app. left. exact H. Qed.

Lemma cascade_rounds_incl (n : nat) (d : list N) (x : N) :
  In x d -> In x (cascade_rounds pk_of parent_of n rows d).
Proof.
  revert d. induction n as [|k IH]; simpl; intros d H; [exact H|].
  apply IH, cascade_round_incl, H.
Qed.

Lemma cascade_incl (seeds : list N) (x : N) :
  In x seeds -> In x (cascade pk_of parent_of rows seeds).
Proof. apply cascade_rounds_incl. Qed.

Lemma cascade_round_stable (d : list N) :
  cascade_closed pk_of parent_of rows d ->
  cascade_round pk_of parent_of rows d = d.
Proof.
  intros Hc. unfold cascade_round.
  replace (filter _ rows) with (@nil A); [apply app_nil_r|].
  symmetry. apply existsb_filter_nil.
  destruct (existsb _ rows) eqn:E; [|reflexivity].
  apply existsb_exists in E. destruct E as (r & Hr & E).
  apply andb_true_iff in E. destruct E as [E1 E2].
  rewrite (Hc r Hr E1) in E2. discriminate.
Qed.

Lemma cascade_rounds_stable (n : nat) (d : list N) :
  cascade_closed pk_of parent_of rows d ->
  cascade_rounds pk_of parent_of n rows d = d.
Proof.
  intros Hc. induction n as [|k IH]; simpl; [reflexivity|].
  rewrite (cascade_round_stable d Hc). exact IH.
Qed.

Lemma cascade_round_progress (d : list N) :
  cascade_closed pk_of parent_of rows d \/
  (not_collected pk_of rows (cascade_round pk_of parent_of rows d)
   < not_collected pk_of rows d)%nat.
Proof.
  destruct (filter (fun r => parent_in parent_of d r
                             && negb (mem_N (pk_of r) d)) rows)
    as [|r0 rest] eqn:E.
  - left. intros r Hr Hp.
    destruct (mem_N (pk_of r) d) eqn:Em; [reflexivity|].
    assert (Hin : In r (filter (fun r => parent_in parent_of d r
                                         && negb (mem_N (pk_of r) d)) rows)).
    { apply filter_In. split; [exact Hr|]. rewrite Hp, Em. reflexivity. }
    rewrite E in Hin. destruct Hin.
  - right.
    assert (Hr0 : In r0 (filter (fun r => parent_in parent_of d r
                                          && negb (mem_N (pk_of r) d)) rows))
      by (rewrite E; left; reflexivity).
    apply filter_In in Hr0. destruct Hr0 as [Hin Hb].
    apply andb_true_iff in Hb. destruct Hb as [_ Hnew].
    unfold not_collected. apply filter_length_lt with (x := r0).
    + intros y Hy. apply negb_true_iff in Hy. apply negb_true_iff.
      destruct (mem_N (pk_of y) d) eqn:Em; [|reflexivity].
      apply mem_N_In, cascade_round_incl, mem_N_In in Em.
      congruence.
    + exact Hin.
    + exact Hnew.
    + apply negb_false_iff, mem_N_In. unfold cascade_round.
      apply in_or_app. right. rewrite E. left. reflexivity.
Qed.

Lemma cascade_rounds_closed (n : nat) (d : list N) :
  (not_collected pk_of rows d <= n)%nat ->
  cascade_closed pk_of parent_of rows
    (cascade_rounds pk_of parent_of n rows d).
Proof.
  revert d. induction n as [|k IH]; intros d Hle.
  - simpl. intros r Hr _.
    destruct (mem_N (pk_of r) d) eqn:Em; [reflexivity|].
    unfold not_collected in Hle.
    assert (Hin : In r (filter (fun r => negb (mem_N (pk_of r) d)) rows)).
    { apply filter_In. split; [exact Hr|]. rewrite Em. reflexivity. }
    destruct (filter _ rows); [destruct Hin | simpl in Hle; lia].
  - destruct (cascade_round_progress d) as [Hc|Hlt].
    + rewrite (cascade_rounds_stable _ d Hc). exact Hc.
    + simpl. apply IH. lia.
Qed.

Lemma cascade_is_closed (seeds : list N) :
  cascade_closed pk_of parent_of rows
    (cascade pk_of parent_of rows seeds).
Proof.
  apply cascade_rounds_closed. unfold not_collected. apply filter_length_le.
Qed.
End CascadeFacts.

(** ** Deleting a category *)

(** C5: deleting a category that a post references fails with
    ReferentialError, and the store, hence the category and the posts that
    reference it, is left as it was. *)
Theorem category_delete_is_protected (s : Store) (c : N) (p : Post.t)
  (Hp : In p (posts s)) (Hc : Post.category p = c) :
  Category_delete s c = Err ReferentialError /\
  commit s (Category_delete s c) = s /\
  categories (commit s (Category_delete s c)) = categories s /\
  In p (posts (commit s (Category_delete s c))).
Proof.
  assert (E : Category_delete s c = Err ReferentialError).
  { unfold Category_delete.
    replace (existsb _ (posts s)) with true; [reflexivity|].
    symmetry. apply existsb_exists. exists p. split; [exact Hp|].
    apply mem_N_In, cascade_incl. left. symmetry. exact Hc. }
  rewrite E. simpl. auto.
Qed.

Lemma category_delete_is_protected_witness :
  Category_delete sample_store 1 = Err ReferentialError /\
  commit sample_store (Category_delete sample_store 1) = sample_store.
Proof.
  destruct (category_delete_is_protected sample_store 1
              (sample_post 1 "tech" "published" 10 false)) as (H1 & H2 & _).
  - simpl. left. reflexivity.
  - reflexivity.
  - split; assumption.
Defined.

(** ** Deleting a post *)

(** C6: deleting a post leaves no comment and no rating that references
    it, removes nothing else from the ratings, leaves no comment whose
    parent went away, and leaves the categories (and the users) as they
    were. *)
Theorem post_delete_cascades (s : Store) (p : N) :
  (forall q, In q (posts (Post_delete s p)) ->
     In q (posts s) /\ Post.has_pk p q = false) /\
  (forall c, In c (comments (Post_delete s p)) ->
     In c (comments s) /\ Comment.post c <> p) /\
  (forall c c', In c (comments (Post_delete s p)) ->
     In c' (comments s) -> Comment.parent c = Some (Comment.pk c') ->
     In c' (comments (Post_delete s p))) /\
  ratings (Post_delete s p)
  = filter (fun r => negb (N.eqb (Rating.post r) p)) (ratings s) /\
  (forall r, In r (ratings (Post_delete s p)) -> Rating.post r <> p) /\
  categories (Post_delete s p) = categories s /\
  users (Post_delete s p) = users s.
Proof.
  unfold Post_delete. simpl.
  set (seeds := filter (fun c => N.eqb (Comment.post c) p) (comments s)).
  split; [|split; [|split; [|split; [|split; [|split]]]]];
    try reflexivity.
  - intros q Hq. apply filter_In in Hq. destruct Hq as [Hq Hb].
    split; [exact Hq | apply negb_true_iff, Hb].
  - intros c Hc. apply filter_In in Hc. destruct Hc as [Hc Hb].
    split; [exact Hc|]. intros E. apply negb_true_iff in Hb.
    assert (Hin : In (Comment.pk c) (doomed_comments s seeds)).
    { apply cascade_incl, in_map. apply filter_In.
      split; [exact Hc | apply N.eqb_eq, E]. }
    apply mem_N_In in Hin. congruence.
  - intros c c' Hc Hc' Hpar. apply filter_In in Hc. destruct Hc as [Hc Hb].
    apply filter_In. split; [exact Hc'|].
    apply negb_true_iff in Hb. apply negb_true_iff.
    destruct (mem_N (Comment.pk c') (doomed_comments s seeds)) eqn:E;
      [|reflexivity].
    rewrite <- Hb. symmetry.
    apply (cascade_is_closed Comment.pk Comment.parent (comments s)
             (map Comment.pk seeds) c Hc).
    unfold parent_in. rewrite Hpar. exact E.
  - intros r Hr. apply filter_In in Hr. destruct Hr as [_ Hb].
    apply negb_true_iff, N.eqb_neq in Hb. exact Hb.
Qed.

Lemma post_delete_cascades_witness :
  comments (Post_delete sample_store 1)
  = [Comment.mk 3 3 2 "other" 13 13 "published" None] /\
  ratings (Post_delete sample_store 1) = [] /\
  categories (Post_delete sample_store 1) = [tech; web] /\
  Comment.post (Comment.mk 3 3 2 "other" 13 13 "published" None) <> 1%N.
Proof.
  destruct (post_delete_cascades sample_store 1)
    as (_ & Hc & _ & Hr & _ & Hcat & _).
  split; [reflexivity|]. split; [exact Hr|]. split; [exact Hcat|].
  apply Hc. simpl. left. reflexivity.
Defined.

(** ** Deleting a user *)

Lemma user_delete_inv (s : Store) (u : N) (s' : Store) :
  User_delete s u = Ok s' ->
  users s' = filter (fun x => negb (N.eqb (User.pk x) u)) (users s) /\
  posts s' = map (Post_release_user u) (posts s) /\
  categories s' = categories s /\
  ratings s'
  = filter (fun r => negb (opt_N_eqb (Rating.user r) u)) (ratings s).
Proof.
  unfold User_delete. destruct (_ && _); [discriminate|].
  intros [= <-]. simpl. auto.
Qed.

(** C10: a user's deletion that goes through removes exactly the ratings
    whose user is that user, so that no rating references the user any
    more; and there is a store in which this changes the score of a
    post. *)
Theorem user_delete_cascades_to_ratings :
  (forall s u s', User_delete s u = Ok s' ->
     ratings s'
     = filter (fun r => negb (opt_N_eqb (Rating.user r) u)) (ratings s) /\
     (forall r, In r (ratings s') -> Rating.user r <> Some u) /\
     (forall r, In r (ratings s) -> Rating.user r <> Some u ->
        In r (ratings s'))) /\
  (exists s u s' post,
     User_delete s u = Ok s' /\
     Post_get_sum_rating s' post <> Post_get_sum_rating s post).
Proof.
  split.
  - intros s u s' H. apply user_delete_inv in H.
    destruct H as (_ & _ & _ & Hr). rewrite Hr.
    split; [reflexivity|]. split.
    + intros r Hin. apply filter_In in Hin. destruct Hin as [_ Hb].
      intros E. rewrite E in Hb. simpl in Hb.
      rewrite N.eqb_refl in Hb. discriminate.
    + intros r Hin Hne. apply filter_In. split; [exact Hin|].
      apply negb_true_iff. destruct (Rating.user r) as [n|]; simpl;
        [|reflexivity].
      apply N.eqb_neq. intros ->. apply Hne. reflexivity.
  - exists sample_store, 2%N.
    eexists. exists 1%N. split; [reflexivity|].
    vm_compute. discriminate.
Qed.

Lemma user_delete_cascades_to_ratings_witness :
  exists s', User_delete sample_store 2 = Ok s' /\
    ratings s' = [Rating.mk 2 1 None (-1) 31 "5.6.7.8"].
Proof.
  eexists. split; [reflexivity|].
  apply (proj1 user_delete_cascades_to_ratings sample_store 2%N _ eq_refl).
Defined.

(** ** The slug generator *)

Lemma fresh_pk_gt (l : list N) (n : N) : In n l -> (n < fresh_pk l)%N.
Proof.
  unfold fresh_pk. induction l as [|x t IH]; simpl; [tauto|].
  intros [->|H]; [|specialize (IH H)]; lia.
Qed.

Lemma append_inj_l (a x y : string) :
  (a ++ x)%string = (a ++ y)%string -> x = y.
Proof.
  induction a as [|c a IH]; simpl; intros H; [exact H|].
  injection H as H. apply IH, H.
Qed.

Lemma append_length (a b : string) :
  String.length (a ++ b) = (String.length a + String.length b)%nat.
Proof.
  induction a as [|c a IH]; simpl; [reflexivity | rewrite IH; reflexivity].
Qed.

Lemma decimal_inj (i j : nat) : decimal i = decimal j -> i = j.
Proof.
  unfold decimal. intros H.
  assert (E : Some (Nat.to_uint i) = Some (Nat.to_uint j)).
  { rewrite <- (NilEmpty.usu (Nat.to_uint i)),
            <- (NilEmpty.usu (Nat.to_uint j)), H. reflexivity. }
  injection E as E. apply (f_equal Nat.of_uint) in E.
  rewrite !Unsigned.of_to in E. exact E.
Qed.

Lemma slug_candidate_inj (base : string) (i j : nat) :
  slug_candidate base i = slug_candidate base j -> i = j.
Proof.
  destruct i as [|i], j as [|j]; simpl; intros H.
  - reflexivity.
  - apply (f_equal String.length) in H. rewrite append_length in H.
    simpl in H. lia.
  - apply (f_equal String.length) in H. rewrite append_length in H.
    simpl in H. lia.
  - apply append_inj_l in H. injection H as H.
    apply decimal_inj in H. lia.
Qed.

Lemma existsb_eqb_In (c : string) (l : list string) :
  existsb (String.eqb c) l = true <-> In c l.
Proof.
  rewrite existsb_exists. split.
  - intros (x & Hx & E). apply String.eqb_eq in E. subst. exact Hx.
  - intros H. exists c. split; [exact H | apply String.eqb_refl].
Qed.

Lemma first_free_not_taken (taken : list string) (base : string)
  (k fuel : nat) (c : string) :
  first_free taken base k fuel = Some c -> ~ In c taken.
Proof.
  revert k. induction fuel as [|f IH]; intros k; simpl;
    destruct (existsb (String.eqb (slug_candidate base k)) taken) eqn:E;
    simpl; try discriminate.
  - intros [= <-] H. apply existsb_eqb_In in H. congruence.
  - apply IH.
  - intros [= <-] H. apply existsb_eqb_In in H. congruence.
Qed.

(** With as many retries as there are slugs taken, a free candidate is
    always found: the candidates are pairwise distinct, so each collision
    uses up one taken slug. *)
Lemma first_free_finds (taken : list string) (base : string) :
  forall (fuel k : nat) (T : list string),
    (List.length T <= fuel)%nat ->
    (forall j, (k <= j)%nat -> In (slug_candidate base j) taken ->
               In (slug_candidate base j) T) ->
    exists c, first_free taken base k fuel = Some c.
Proof.
  induction fuel as [|f IH]; intros k T Hlen Hcov; simpl;
    destruct (existsb (String.eqb (slug_candidate base k)) taken) eqn:E;
    simpl; try (eexists; reflexivity).
  - apply existsb_eqb_In in E. apply (Hcov k (le_n k)) in E.
    destruct T; [destruct E | simpl in Hlen; lia].
  - apply existsb_eqb_In in E. apply (Hcov k (le_n k)) in E.
    apply (IH (S k) (remove string_dec (slug_candidate base k) T)).
    + pose proof (remove_length_lt string_dec T _ E). lia.
    + intros j Hj Hin. apply in_in_remove.
      * intros C. apply slug_candidate_inj in C. lia.
      * apply Hcov; [lia | exact Hin].
Qed.

Lemma unique_slugify_total (slugify : string -> string)
  (ps : list Post.t) (self : option N) (title slug : string) :
  exists c, unique_slugify slugify ps self title slug = Ok c /\
            ~ In c (other_slugs ps self).
Proof.
  unfold unique_slugify.
  destruct (first_free_finds (other_slugs ps self) (slugify title)
              (List.length (other_slugs ps self)) 0 (other_slugs ps self)
              (le_n _) (fun _ _ h => h)) as (c & E).
  rewrite E. exists c. split; [reflexivity|].
  eapply first_free_not_taken, E.
Qed.

(** ** Saving a post *)

Lemma has_pk_iff (n : N) (q : Post.t) :
  Post.has_pk n q = true <-> Post.pk q = Some n.
Proof.
  unfold Post.has_pk. destruct (Post.pk q) as [m|].
  - rewrite N.eqb_eq. split; congruence.
  - split; discriminate.
Qed.

Lemma filter_all {A : Type} (f : A -> bool) (l : list A) :
  (forall x, In x l -> f x = true) -> filter f l = l.
Proof.
  induction l as [|x t IH]; simpl; intros H; [reflexivity|].
  rewrite (H x (or_introl eq_refl)), IH; auto.
Qed.

Lemma NoDup_snoc {A : Type} (l : list A) (x : A) :
  NoDup l -> ~ In x l -> NoDup (l ++ [x]).
Proof.
  intros Hl Hx.
  apply (Permutation_NoDup (Permutation_cons_append l x)).
  constructor; assumption.
Qed.

Lemma NoDup_map_filter {A B : Type} (f : A -> B) (g : A -> bool)
  (l : list A) :
  NoDup (map f l) -> NoDup (map f (filter g l)).
Proof.
  induction l as [|x t IH]; simpl; intros H; [constructor|].
  inversion H as [|? ? Hx Ht]; subst.
  destruct (g x); simpl; [|apply IH, Ht].
  constructor; [|apply IH, Ht].
  intros C. apply Hx. apply in_map_iff in C.
  destruct C as (y & E & Hy). apply filter_In in Hy.
  apply in_map_iff. exists y. tauto.
Qed.

Lemma stored_pk_In (s : Store) (q : Post.t) (n : N) :
  In q (posts s) -> Post.pk q = Some n -> In n (stored_post_pks s).
Proof.
  intros Hq E. unfold stored_post_pks. apply in_flat_map.
  exists q. split; [exact Hq|]. rewrite E. left. reflexivity.
Qed.

Lemma replace_row_keeps_slugs (n : N) (new : Post.t) (ps : list Post.t) :
  Post.pk new = Some n ->
  NoDup (map Post.pk ps) ->
  NoDup (map Post.slug ps) ->
  ~ In (Post.slug new)
      (map Post.slug (filter (fun q => negb (Post.has_pk n q)) ps)) ->
  NoDup (map Post.slug
           (map (fun q => if Post.has_pk n q then new else q) ps)) /\
  map Post.pk (map (fun q => if Post.has_pk n q then new else q) ps)
  = map Post.pk ps.
Proof.
  intros Hnew. induction ps as [|q t IH]; simpl; intros Hk Hs Hfree.
  - split; [constructor | reflexivity].
  - inversion Hk as [|? ? Hkq Hkt]; subst.
    inversion Hs as [|? ? Hsq Hst]; subst.
    destruct (Post.has_pk n q) eqn:E; simpl in Hfree.
    + apply has_pk_iff in E.
      assert (Hnone : forall x, In x t -> Post.has_pk n x = false).
      { intros x Hx. destruct (Post.has_pk n x) eqn:Ex; [|reflexivity].
        apply has_pk_iff in Ex. exfalso. apply Hkq. rewrite E, <- Ex.
        apply in_map, Hx. }
      assert (Hmap : map (fun q => if Post.has_pk n q then new else q) t = t).
      { clear -Hnone. induction t as [|x t IH]; simpl; [reflexivity|].
        rewrite (Hnone x (or_introl eq_refl)), IH; auto.
        intros y Hy. apply Hnone. right. exact Hy. }
      rewrite filter_all in Hfree
        by (intros x Hx; rewrite (Hnone x Hx); reflexivity).
      rewrite Hmap. split; [constructor; assumption|].
      rewrite Hnew, E. reflexivity.
    + destruct IH as [IHs IHk]; [assumption | assumption | tauto |].
      split; [|rewrite IHk; reflexivity].
      constructor; [|exact IHs].
      intros C. apply in_map_iff in C. destruct C as (y & Ey & Hy).
      apply in_map_iff in Hy. destruct Hy as (x & <- & Hx).
      destruct (Post.has_pk n x).
      * apply Hfree. left. symmetry. exact Ey.
      * apply Hsq. rewrite <- Ey. apply in_map, Hx.
Qed.

Lemma Model_save_post_ok (s : Store) (p : Post.t) (now : Z) (s' : Store) :
  posts_ok s ->
  ~ In (Post.slug p) (other_slugs (posts s) (Post.pk p)) ->
  Model_save_post s p now = Ok s' ->
  posts_ok s'.
Proof.
  intros [[Hsome Hkeys] Hslugs] Hfree. unfold Model_save_post.
  destruct (Post_fk_ok s p); simpl; [|discriminate].
  unfold other_slugs in Hfree.
  destruct (Post.pk p) as [n|] eqn:Epk.
  - destruct (post_exists s n) eqn:Eex; intros [= <-].
    + destruct (replace_row_keeps_slugs n
                  (Post_stamp p (Some n) (Post.create p) now) (posts s)
                  eq_refl Hkeys Hslugs Hfree) as [Hs Hk].
      split; [split|]; simpl.
      * intros q Hq. apply in_map_iff in Hq. destruct Hq as (x & <- & Hx).
        destruct (Post.has_pk n x); [discriminate | apply Hsome, Hx].
      * rewrite Hk. exact Hkeys.
      * exact Hs.
    + assert (Hnone : forall x, In x (posts s) -> Post.pk x <> Some n).
      { intros x Hx C. apply has_pk_iff in C.
        unfold post_exists in Eex.
        assert (existsb (Post.has_pk n) (posts s) = true)
          by (apply existsb_exists; exists x; auto).
        congruence. }
      rewrite filter_all in Hfree.
      2:{ intros x Hx. simpl. apply negb_true_iff.
          destruct (Post.has_pk n x) eqn:E; [|reflexivity].
          apply has_pk_iff in E. destruct (Hnone x Hx E). }
      split; [split|]; simpl.
      * intros q Hq. apply in_app_or in Hq.
        destruct Hq as [Hq|[<-|[]]]; [apply Hsome, Hq | discriminate].
      * rewrite map_app. apply NoDup_snoc; [exact Hkeys|]. simpl.
        intros C. apply in_map_iff in C. destruct C as (x & E & Hx).
        apply (Hnone x Hx E).
      * unfold slugs_distinct. simpl. rewrite map_app.
        apply NoDup_snoc; assumption.
  - intros [= <-].
    rewrite filter_all in Hfree by reflexivity.
    split; [split|]; simpl.
    + intros q Hq. apply in_app_or in Hq.
      destruct Hq as [Hq|[<-|[]]]; [apply Hsome, Hq | discriminate].
    + rewrite map_app. apply NoDup_snoc; [exact Hkeys|]. simpl.
      intros C. apply in_map_iff in C. destruct C as (x & E & Hx).
      pose proof (fresh_pk_gt _ _ (stored_pk_In s x _ Hx E)). lia.
    + unfold slugs_distinct. simpl. rewrite map_app.
      apply NoDup_snoc; assumption.
Qed.

Lemma Post_save_ok (slugify : string -> string) (s : Store) (p : Post.t)
  (now : Z) (s' : Store) :
  posts_ok s -> Post_save slugify s p now = Ok s' -> posts_ok s'.
Proof.
  intros Hok. unfold Post_save.
  destruct (unique_slugify_total slugify (posts s) (Post.pk p)
              (Post.title p) (Post.slug p)) as (c & E & Hfree).
  rewrite E. simpl. apply Model_save_post_ok; assumption.
Qed.

Lemma Post_delete_ok (s : Store) (p : N) :
  posts_ok s -> posts_ok (Post_delete s p).
Proof.
  intros [[Hsome Hkeys] Hslugs]. split; [split|]; simpl.
  - intros q Hq. apply filter_In in Hq. apply Hsome, Hq.
  - apply NoDup_map_filter, Hkeys.
  - apply NoDup_map_filter, Hslugs.
Qed.

Lemma User_delete_ok (s : Store) (u : N) (s' : Store) :
  posts_ok s -> User_delete s u = Ok s' -> posts_ok s'.
Proof.
  intros [[Hsome Hkeys] Hslugs] H. apply user_delete_inv in H.
  destruct H as (_ & Hp & _). unfold posts_ok, post_keys_ok, slugs_distinct.
  rewrite Hp, !map_map. simpl. split; [split|]; try assumption.
  intros q Hq. apply in_map_iff in Hq. destruct Hq as (x & <- & Hx).
  simpl. apply Hsome, Hx.
Qed.

Section StepFacts.
Context {fw : Framework}.
Variable slugify : string -> string.

Lemma register_frame (s : Store) (data : RegisterData) (s' : Store) :
  register s data = Ok s' -> posts s' = posts s /\ ratings s' = ratings s.
Proof.
  unfold register, bind.
  destruct (UserRegisterForm_clean (users s) data)
    as [[[[[u p] e] f] l]|]; [|discriminate].
  intros [= <-]. auto.
Qed.

Lemma update_account_frame (s : Store) (i : User.t) (data : AccountData)
  (s' : Store) :
  update_account s i data = Ok s' ->
  posts s' = posts s /\ ratings s' = ratings s.
Proof.
  unfold update_account, bind.
  destruct (UserUpdateForm_clean (users s) i data); [|discriminate].
  intros [= <-]. auto.
Qed.

Lemma update_profile_frame (s : Store) (i : Profile.t) (data : ProfileData)
  (s' : Store) :
  update_profile s i data = Ok s' ->
  posts s' = posts s /\ ratings s' = ratings s.
Proof.
  unfold update_profile, bind.
  destruct (ProfileUpdateForm_clean i data); [|discriminate].
  intros [= <-]. auto.
Qed.

Lemma Category_delete_frame (s : Store) (c : N) (s' : Store) :
  Category_delete s c = Ok s' ->
  posts s' = posts s /\ ratings s' = ratings s.
Proof.
  unfold Category_delete. destruct (existsb _ (posts s)); [discriminate|].
  intros [= <-]. auto.
Qed.

Lemma Model_save_post_ratings (s : Store) (p : Post.t) (now : Z)
  (s' : Store) :
  Model_save_post s p now = Ok s' -> ratings s' = ratings s.
Proof.
  unfold Model_save_post. destruct (Post_fk_ok s p); [|discriminate].
  simpl. destruct (Post.pk p); [destruct (post_exists s n)|];
    intros [= <-]; reflexivity.
Qed.

Lemma posts_ok_same (s s' : Store) :
  posts s' = posts s -> posts_ok s -> posts_ok s'.
Proof.
  unfold posts_ok, post_keys_ok, slugs_distinct. intros ->. tauto.
Qed.

Lemma one_vote_same (s s' : Store) :
  ratings s' = ratings s -> one_vote_per_address s ->
  one_vote_per_address s'.
Proof.
  unfold one_vote_per_address, ratings_for. intros ->. tauto.
Qed.

Lemma one_vote_filter (s s' : Store) (f : Rating.t -> bool) :
  ratings s' = filter f (ratings s) -> one_vote_per_address s ->
  one_vote_per_address s'.
Proof.
  unfold one_vote_per_address, ratings_for. intros -> H post address.
  specialize (H post address).
  assert (Hle : forall l,
    (List.length (filter (same_pair post address) (filter f l))
     <= List.length (filter (same_pair post address) l))%nat).
  { induction l as [|x t IH]; simpl; [lia|].
    destruct (f x); simpl; destruct (same_pair post address x); simpl; lia. }
  specialize (Hle (ratings s)). lia.
Qed.

Lemma step_keeps_posts_ok (s s' : Store) :
  step slugify s s' -> posts_ok s -> posts_ok s'.
Proof.
  intros H Hok. destruct H as
    [s d s' H|s i d s' H|s i d s' H|s po a v u n s' H|s p n s' H|s p
    |s u s' H|s c s' H].
  - apply (posts_ok_same s); [apply (register_frame _ _ _ H) | exact Hok].
  - apply (posts_ok_same s);
      [apply (update_account_frame _ _ _ _ H) | exact Hok].
  - apply (posts_ok_same s);
      [apply (update_profile_frame _ _ _ _ H) | exact Hok].
  - apply cast_vote_inv in H. destruct H as (_ & _ & ->). exact Hok.
  - apply (Post_save_ok slugify s p n); assumption.
  - apply Post_delete_ok, Hok.
  - apply (User_delete_ok s u); assumption.
  - apply (posts_ok_same s);
      [apply (Category_delete_frame _ _ _ H) | exact Hok].
Qed.

Lemma step_keeps_one_vote (s s' : Store) :
  step slugify s s' -> one_vote_per_address s -> one_vote_per_address s'.
Proof.
  intros H Hok. destruct H as
    [s d s' H|s i d s' H|s i d s' H|s po a v u n s' H|s p n s' H|s p
    |s u s' H|s c s' H].
  - apply (one_vote_same s); [apply (register_frame _ _ _ H) | exact Hok].
  - apply (one_vote_same s);
      [apply (update_account_frame _ _ _ _ H) | exact Hok].
  - apply (one_vote_same s);
      [apply (update_profile_frame _ _ _ _ H) | exact Hok].
  - apply (cast_vote_keeps_one_vote s po a v u n); assumption.
  - apply (one_vote_same s); [|exact Hok].
    unfold Post_save, bind in H.
    destruct (unique_slugify _ _ _ _ _); [|discriminate].
    apply (Model_save_post_ratings _ _ _ _ H).
  - apply (one_vote_filter s (Post_delete s p)
             (fun r => negb (N.eqb (Rating.post r) p)) eq_refl Hok).
  - apply user_delete_inv in H. destruct H as (_ & _ & _ & H).
    apply (one_vote_filter s _ _ H Hok).
  - apply (one_vote_same s);
      [apply (Category_delete_frame _ _ _ H) | exact Hok].
Qed.

Lemma reaches_keeps_posts_ok (s0 s : Store) :
  reaches slugify s0 s -> posts_ok s0 -> posts_ok s.
Proof.
  induction 1 as [|s s' _ IH Hstep]; intros H0; [exact H0|].
  apply (step_keeps_posts_ok s); auto.
Qed.

Lemma reaches_keeps_one_vote (s0 s : Store) :
  reaches slugify s0 s -> one_vote_per_address s0 -> one_vote_per_address s.
Proof.
  induction 1 as [|s s' _ IH Hstep]; intros H0; [exact H0|].
  apply (step_keeps_one_vote s); auto.
Qed.
Lemma key_exists_In {A : Type} (key : A -> N) (l : list A) (n : N) :
  existsb (fun x => N.eqb (key x) n) l = true <-> In n (map key l).
Proof.
  rewrite existsb_exists, in_map_iff. split.
  - intros (x & Hx & E). apply N.eqb_eq in E. eauto.
  - intros (x & E & Hx). exists x. split; [exact Hx | apply N.eqb_eq, E].
Qed.

Lemma joinable_same (s s' : Store) :
  users s' = users s -> categories s' = categories s ->
  (forall p, In p (posts s') -> In p (posts s)) ->
  posts_joinable s -> posts_joinable s'.
Proof.
  unfold posts_joinable, user_exists, category_exists.
  intros -> -> Hp (Hu & Hc & Hfk). auto.
Qed.

Lemma joinable_more_users (s s' : Store) :
  NoDup (map User.pk (users s')) ->
  (forall n, In n (map User.pk (users s)) -> In n (map User.pk (users s'))) ->
  categories s' = categories s -> posts s' = posts s ->
  posts_joinable s -> posts_joinable s'.
Proof.
  unfold posts_joinable, user_exists, category_exists.
  intros Hnd Hin -> -> (Hu & Hc & Hfk). split; [exact Hnd|].
  split; [exact Hc|]. intros p Hp. destruct (Hfk p Hp) as [Ha Hcat].
  split; [|exact Hcat]. apply key_exists_In, Hin, key_exists_In, Ha.
Qed.

Lemma register_joinable (s : Store) (data : RegisterData) (s' : Store) :
  register s data = Ok s' -> posts_joinable s -> posts_joinable s'.
Proof.
  unfold register, bind.
  destruct (UserRegisterForm_clean (users s) data)
    as [[[[[u p] e] f] l]|]; [|discriminate].
  intros [= <-] Hj. apply (joinable_more_users s); simpl;
    try reflexivity; try exact Hj.
  - rewrite map_app. apply NoDup_snoc; [apply Hj|]. simpl.
    intros C. apply fresh_pk_gt in C. lia.
  - intros n Hn. rewrite map_app. apply in_or_app. left. exact Hn.
Qed.

Lemma UserUpdateForm_clean_pk (us : list User.t) (i : User.t)
  (data : AccountData) (row : User.t) :
  UserUpdateForm_clean us i data = Ok row -> User.pk row = User.pk i.
Proof.
  unfold UserUpdateForm_clean.
  destruct (CharField_clean true _ (d_username data)); [|discriminate].
  destruct (_ <- EmailField_clean true _ (d_email data) ;; _);
    [|discriminate].
  destruct (CharField_clean true _ (d_first_name data)); [|discriminate].
  destruct (CharField_clean true _ (d_last_name data)); [|discriminate].
  destruct (_ && _); [|discriminate].
  intros [= <-]. reflexivity.
Qed.

Lemma update_account_joinable (s : Store) (i : User.t) (data : AccountData)
  (s' : Store) :
  update_account s i data = Ok s' -> posts_joinable s -> posts_joinable s'.
Proof.
  unfold update_account, bind.
  destruct (UserUpdateForm_clean (users s) i data) as [row|] eqn:E;
    [|discriminate].
  apply UserUpdateForm_clean_pk in E.
  intros [= <-] Hj.
  assert (Hmap : map User.pk
                   (map (fun q => if N.eqb (User.pk q) (User.pk i)
                                  then row else q) (users s))
                 = map User.pk (users s)).
  { rewrite map_map. apply map_ext. intros q.
    destruct (N.eqb_spec (User.pk q) (User.pk i)); congruence. }
  apply (joinable_more_users s); simpl; try reflexivity; try exact Hj.
  - destruct (user_exists s (User.pk i)) eqn:Ex.
    + rewrite Hmap. apply Hj.
    + rewrite map_app. apply NoDup_snoc; [apply Hj|]. simpl.
      intros C. rewrite E in C. apply key_exists_In in C.
      unfold user_exists in Ex. congruence.
  - intros n Hn. destruct (user_exists s (User.pk i)).
    + rewrite Hmap. exact Hn.
    + rewrite map_app. apply in_or_app. left. exact Hn.
Qed.

Lemma Model_save_post_joinable (s : Store) (p : Post.t) (now : Z)
  (s' : Store) :
  Model_save_post s p now = Ok s' -> posts_joinable s -> posts_joinable s'.
Proof.
  unfold Model_save_post. destruct (Post_fk_ok s p) eqn:Efk; [|discriminate].
  simpl. unfold Post_fk_ok in Efk.
  apply andb_true_iff in Efk. destruct Efk as [Efk _].
  apply andb_true_iff in Efk. destruct Efk as [Ec Ea].
  intros H (Hu & Hc & Hfk).
  destruct (Post.pk p) as [n|]; [destruct (post_exists s n)|];
    injection H as <-; split; try exact Hu; split; try exact Hc;
    simpl; intros q Hq.
  - apply in_map_iff in Hq. destruct Hq as (x & <- & Hx).
    destruct (Post.has_pk n x); [simpl; auto | apply Hfk, Hx].
  - apply in_app_or in Hq. destruct Hq as [Hq|[<-|[]]];
      [apply Hfk, Hq | simpl; auto].
  - apply in_app_or in Hq. destruct Hq as [Hq|[<-|[]]];
      [apply Hfk, Hq | simpl; auto].
Qed.

Lemma User_delete_joinable (s : Store) (u : N) (s' : Store) :
  User_delete s u = Ok s' -> posts_joinable s -> posts_joinable s'.
Proof.
  unfold User_delete.
  destruct (existsb (fun p => N.eqb (Post.author p) u) (posts s)
            && negb _) eqn:Echeck; [discriminate|].
  intros [= <-] (Hu & Hc & Hfk).
  split; [apply NoDup_map_filter, Hu|]. split; [exact Hc|].
  simpl. intros q Hq. apply in_map_iff in Hq. destruct Hq as (p & <- & Hp).
  destruct (Hfk p Hp) as [Ha Hcat]. split; [|exact Hcat].
  unfold user_exists. simpl.
  destruct (N.eqb_spec (Post.author p) u) as [E|E].
  - apply andb_false_iff in Echeck. destruct Echeck as [C|C].
    + assert (existsb (fun p => N.eqb (Post.author p) u) (posts s) = true).
      { apply existsb_exists. exists p. split; [exact Hp|].
        apply N.eqb_eq, E. }
      congruence.
    + apply negb_false_iff in C. exact C.
  - apply existsb_exists in Ha. destruct Ha as (x & Hx & Ex).
    apply existsb_exists. exists x. split; [|exact Ex].
    apply filter_In. split; [exact Hx|]. apply negb_true_iff, N.eqb_neq.
    apply N.eqb_eq in Ex. congruence.
Qed.

Lemma Category_delete_joinable (s : Store) (c : N) (s' : Store) :
  Category_delete s c = Ok s' -> posts_joinable s -> posts_joinable s'.
Proof.
  unfold Category_delete.
  destruct (existsb _ (posts s)) eqn:Echeck; [discriminate|].
  intros [= <-] (Hu & Hc & Hfk).
  split; [exact Hu|]. split; [apply NoDup_map_filter, Hc|].
  simpl. intros p Hp. destruct (Hfk p Hp) as [Ha Hcat].
  split; [exact Ha|]. unfold category_exists in *. simpl.
  apply existsb_exists in Hcat. destruct Hcat as (x & Hx & Ex).
  apply existsb_exists. exists x. split; [|exact Ex].
  apply filter_In. split; [exact Hx|]. apply negb_true_iff.
  apply N.eqb_eq in Ex. rewrite Ex.
  destruct (mem_N (Post.category p) _) eqn:Em; [|reflexivity].
  assert (existsb
            (fun p => mem_N (Post.category p)
                        (cascade Category.pk Category.parent
                           (categories s) [c])) (posts s) = true)
    by (apply existsb_exists; exists p; auto).
  congruence.
Qed.

Lemma step_keeps_joinable (s s' : Store) :
  step slugify s s' -> posts_joinable s -> posts_joinable s'.
Proof.
  intros H Hok. destruct H as
    [s d s' H|s i d s' H|s i d s' H|s po a v u n s' H|s p n s' H|s p
    |s u s' H|s c s' H].
  - apply (register_joinable s d); assumption.
  - apply (update_account_joinable s i d); assumption.
  - unfold update_profile, bind in H.
    destruct (ProfileUpdateForm_clean i d); [|discriminate].
    injection H as <-. exact Hok.
  - apply cast_vote_inv in H. destruct H as (_ & _ & ->). exact Hok.
  - unfold Post_save, bind in H.
    destruct (unique_slugify _ _ _ _ _); [|discriminate].
    apply (Model_save_post_joinable _ _ _ _ H Hok).
  - apply (joinable_same s); try reflexivity; [|exact Hok].
    simpl. intros q Hq. apply filter_In in Hq. apply Hq.
  - apply (User_delete_joinable s u); assumption.
  - apply (Category_delete_joinable s c); assumption.
Qed.

Lemma reaches_keeps_joinable (s0 s : Store) :
  reaches slugify s0 s -> posts_joinable s0 -> posts_joinable s.
Proof.
  induction 1 as [|s s' _ IH Hstep]; intros H0; [exact H0|].
  apply (step_keeps_joinable s); auto.
Qed.
End StepFacts.

(** C3: in every store reached from one whose keys are unique and whose
    posts have their author and category (what the datastore's primary
    and foreign keys maintain), list_published returns exactly the posts
    with status published (no draft), each with its author and its
    category, sorted by fixed descending then creation time descending;
    so no post that is not pinned comes before a pinned one. *)
Theorem list_published_filters_joins_orders (fw : Framework)
  (slugify : string -> string) (s0 s : Store)
  (H0 : posts_joinable s0) (Hr : reaches slugify s0 s) :
  Permutation (map post_of (list_published s))
    (filter is_published (posts s)) /\
  (forall p, In p (posts s) -> Post.status p = "draft" ->
     ~ In p (map post_of (list_published s))) /\
  (forall j, In j (list_published s) ->
     Post.status (post_of j) = "published" /\
     In (author_of j) (users s) /\
     User.pk (author_of j) = Post.author (post_of j) /\
     In (category_of j) (categories s) /\
     Category.pk (category_of j) = Post.category (post_of j)) /\
  StronglySorted fixed_then_recent (map post_of (list_published s)) /\
  (forall l1 a l2 b l3,
     map post_of (list_published s) = l1 ++ a :: l2 ++ b :: l3 ->
     Post.fixed b = true -> Post.fixed a = true).
Proof.
  apply list_published_on_joinable.
  apply (reaches_keeps_joinable slugify s0 s Hr H0).
Qed.

Lemma list_published_filters_joins_orders_witness :
  posts_joinable sample_store /\
  map (fun j => Post.pk (post_of j))
    (list_published (Post_delete sample_store 2)) = [Some 3%N; Some 1%N] /\
  StronglySorted fixed_then_recent
    (map post_of (list_published (Post_delete sample_store 2))).
Proof.
  assert (H : posts_joinable sample_store).
  { split; [|split].
    - repeat constructor; simpl; intuition discriminate.
    - repeat constructor; simpl; intuition discriminate.
    - intros p [<-|[<-|[<-|[]]]]; split; reflexivity. }
  split; [exact H|]. split; [reflexivity|].
  apply (list_published_filters_joins_orders sample_framework
           sample_slugify sample_store (Post_delete sample_store 2) H).
  apply (reaches_step _ _ sample_store); [apply reaches_here|].
  apply step_post_delete.
Defined.

(** C1: starting without ratings, no sequence of operations ever stores
    two Ratings for one (post, address) pair; and after a vote that went
    through, a second vote for the same post from the same address fails,
    with ConflictError when its value is a vote value (+1 or -1), exactly
    one Rating is stored for the pair, and the score of the post is its
    score before the first vote plus the first vote's value. *)
Theorem one_rating_per_post_and_address (fw : Framework)
  (slugify : string -> string) :
  (forall s0 s, ratings s0 = [] -> reaches slugify s0 s ->
     one_vote_per_address s) /\
  (forall s post address v1 u1 t1 s1 v2 u2 t2,
     cast_vote s post address v1 u1 t1 = Ok s1 ->
     is_ok (cast_vote s1 post address v2 u2 t2) = false /\
     (v2 = 1 \/ v2 = -1 ->
      cast_vote s1 post address v2 u2 t2 = Err ConflictError) /\
     ratings_for (commit s1 (cast_vote s1 post address v2 u2 t2))
       post address = 1%nat /\
     Post_get_sum_rating (commit s1 (cast_vote s1 post address v2 u2 t2))
       post
     = Post_get_sum_rating s post + v1).
Proof.
  split.
  - intros s0 s H0 Hr. apply (reaches_keeps_one_vote slugify s0 s Hr).
    intros post address. unfold ratings_for. rewrite H0. simpl. lia.
  - intros s post address v1 u1 t1 s1 v2 u2 t2 H1.
    apply cast_vote_inv in H1. destruct H1 as (_ & Hfree & ->).
    assert (E : exists e,
              cast_vote
                (mkStore (users s) (profiles s) (categories s) (posts s)
                   (comments s)
                   (ratings s ++
                    [Rating.mk (fresh_pk (map Rating.pk (ratings s)))
                       post u1 v1 t1 address]))
                post address v2 u2 t2 = Err e /\
              (v2 = 1 \/ v2 = -1 -> e = ConflictError)).
    { unfold cast_vote, Rating_create, Rating_unique_together.
      destruct (Rating_value_valid v2) eqn:Ev; simpl.
      - rewrite existsb_app. simpl. unfold same_pair at 2. simpl.
        rewrite N.eqb_refl, String.eqb_refl, orb_true_r. simpl.
        exists ConflictError. auto.
      - exists ValidationError. split; [reflexivity|]. intros Hv.
        apply Rating_value_valid_spec in Hv. congruence. }
    destruct E as (e & E & He). rewrite E. simpl.
    split; [reflexivity|]. split; [intros Hv; rewrite (He Hv); reflexivity|].
    split.
    + unfold ratings_for. simpl. rewrite count_pair_app, Hfree.
      unfold same_pair. simpl.
      rewrite N.eqb_refl, String.eqb_refl. reflexivity.
    + rewrite !get_sum_rating_spec. simpl. rewrite spec_score_of_app.
      simpl. rewrite N.eqb_refl. reflexivity.
Qed.

Lemma one_rating_per_post_and_address_witness :
  exists s1,
    cast_vote quiet_store 1 "1.2.3.4" 1 None 40 = Ok s1 /\
    cast_vote s1 1 "1.2.3.4" (-1) None 41 = Err ConflictError /\
    ratings_for s1 1 "1.2.3.4" = 1%nat /\
    Post_get_sum_rating s1 1 = 1.
Proof.
  eexists. split; [reflexivity|].
  destruct (proj2 (one_rating_per_post_and_address sample_framework
                     sample_slugify)
              quiet_store 1%N "1.2.3.4" 1 None 40 _ (-1) None 41 eq_refl)
    as (_ & H1 & H2 & H3).
  split; [apply H1; right; reflexivity|]. split; [exact H2 | exact H3].
Defined.

(** ** Slugs of posts *)

Lemma post_slug_has_no_datastore_constraint :
  slugs_distinct sample_store /\
  exists s', Model_save_post sample_store duplicate_post 50 = Ok s' /\
             ~ slugs_distinct s'.
Proof.
  split.
  - unfold slugs_distinct. simpl.
    repeat constructor; simpl; intuition discriminate.
  - eexists. split; [reflexivity|].
    unfold slugs_distinct. simpl. intros H.
    inversion H as [|x l Hx _]; subst. apply Hx. simpl. tauto.
Qed.

(** C2 (amended): the slug generator always returns a slug that no other
    stored post has; a save that goes through keeps the keys and the slugs
    of the stored posts pairwise distinct; so every store reached from one
    without posts has pairwise distinct post slugs.  The datastore itself
    declares no uniqueness constraint on the slug. *)
Theorem post_slugs_distinct_through_save (fw : Framework)
  (slugify : string -> string) :
  (forall s p, exists c,
     unique_slugify slugify (posts s) (Post.pk p) (Post.title p)
       (Post.slug p) = Ok c /\
     ~ In c (other_slugs (posts s) (Post.pk p))) /\
  (forall s p now s',
     posts_ok s -> Post_save slugify s p now = Ok s' -> posts_ok s') /\
  (forall s0 s,
     posts s0 = [] -> reaches slugify s0 s -> slugs_distinct s).
Proof.
  split; [|split].
  - intros s p. apply unique_slugify_total.
  - intros s p now s'. apply Post_save_ok.
  - intros s0 s H0 Hr.
    apply (reaches_keeps_posts_ok slugify s0 s Hr).
    unfold posts_ok, post_keys_ok, slugs_distinct. rewrite H0. simpl.
    split; [split|]; try constructor. intros p [].
Qed.

Lemma post_slugs_distinct_through_save_witness :
  posts_ok sample_store /\
  exists s',
    Post_save sample_slugify sample_store duplicate_post 50 = Ok s' /\
    map Post.slug (posts s') = ["tech"; "tech-2"; "tech-3"; "tech-4"] /\
    slugs_distinct s'.
Proof.
  assert (H : posts_ok sample_store).
  { split; [split|].
    - intros p [<-|[<-|[<-|[]]]]; discriminate.
    - simpl. repeat constructor; simpl; intuition discriminate.
    - unfold slugs_distinct. simpl.
      repeat constructor; simpl; intuition discriminate. }
  split; [exact H|].
  eexists. split; [vm_compute; reflexivity|]. split; [reflexivity|].
  apply (proj1 (proj2 (post_slugs_distinct_through_save sample_framework
                         sample_slugify))
           sample_store duplicate_post 50 _ H eq_refl).
Defined.

(** ** Accounts: e-mail addresses *)

Lemma exists_row_filter {A : Type} (f : A -> bool) (l : list A) (x : A) :
  In x l -> f x = true -> exists_row (filter f l) = true.
Proof.
  intros Hin Hf.
  assert (H : In x (filter f l)) by (apply filter_In; auto).
  destruct (filter f l); [destruct H | reflexivity].
Qed.

Lemma exists_row_filter_none {A : Type} (f : A -> bool) (l : list A) :
  (forall x, In x l -> f x = false) -> exists_row (filter f l) = false.
Proof.
  intros H. replace (filter f l) with (@nil A); [reflexivity|].
  symmetry. apply existsb_filter_nil.
  destruct (existsb f l) eqn:E; [|reflexivity].
  apply existsb_exists in E. destruct E as (x & Hx & E).
  rewrite (H x Hx) in E. discriminate.
Qed.

Section AccountFacts.
Context {fw : Framework}.

Lemma register_email_used (us : list User.t) (raw : string) (u : User.t) :
  In u us -> py_strip raw <> "" -> User.email u = py_strip raw ->
  exists e,
    (v <- EmailField_clean false (Some 254%nat) raw ;;
     UserRegisterForm_clean_email us v) = Err e.
Proof.
  intros Hin Hne He. unfold EmailField_clean, CharField_clean, bind.
  apply String.eqb_neq in Hne. rewrite Hne.
  destruct (has_null (py_strip raw)); [eexists; reflexivity|].
  destruct (254 <? String.length (py_strip raw))%nat; [eexists; reflexivity|].
  rewrite Hne. destruct (validate_email (py_strip raw));
    [|eexists; reflexivity].
  unfold UserRegisterForm_clean_email. rewrite Hne. simpl.
  rewrite (exists_row_filter _ us u Hin); [eexists; reflexivity|].
  apply String.eqb_eq, He.
Qed.

Lemma update_email_used (us : list User.t) (i : User.t) (raw : string)
  (u : User.t) :
  In u us -> User.pk u <> User.pk i -> User.email u = py_strip raw ->
  exists e,
    (v <- EmailField_clean true (Some 254%nat) raw ;;
     UserUpdateForm_clean_email us i v) = Err e.
Proof.
  intros Hin Hpk He. unfold EmailField_clean, CharField_clean, bind.
  destruct (String.eqb (py_strip raw) "") eqn:Hne; [eexists; reflexivity|].
  destruct (has_null (py_strip raw)); [eexists; reflexivity|].
  destruct (254 <? String.length (py_strip raw))%nat; [eexists; reflexivity|].
  rewrite Hne. destruct (validate_email (py_strip raw));
    [|eexists; reflexivity].
  unfold UserUpdateForm_clean_email. rewrite Hne. simpl.
  rewrite (exists_row_filter _ _ u); [eexists; reflexivity| |].
  - apply filter_In. split; [exact Hin | apply String.eqb_eq, He].
  - apply negb_true_iff, N.eqb_neq, Hpk.
Qed.
End AccountFacts.

Lemma register_accepts_a_used_empty_email :
  In carol (users blank_email_store) /\
  User.email carol = py_strip (r_email blank_registration) /\
  exists s',
    register (fw := sample_framework) blank_email_store blank_registration
    = Ok s' /\
    map User.email (users s') = ["a@x.com"; "b@x.com"; ""; ""].
Proof.
  split; [simpl; tauto|]. split; [reflexivity|].
  eexists. split; [vm_compute; reflexivity | reflexivity].
Qed.

(** C8 (amended): a registration whose e-mail address, once stripped, is
    not empty and is the address of a stored user fails with
    ValidationError and leaves the store as it was; an account update
    whose address is that of a stored user other than the one updated
    fails with ValidationError and leaves the store as it was; and the
    update form accepts an address that no other user has, also when the
    updated user has it.  An empty address is not checked. *)
Theorem email_unique_when_given (fw : Framework) :
  (forall s data u,
     In u (users s) ->
     py_strip (r_email data) <> "" ->
     User.email u = py_strip (r_email data) ->
     register s data = Err ValidationError /\
     commit s (register s data) = s) /\
  (forall s instance data u,
     In u (users s) ->
     User.pk u <> User.pk instance ->
     User.email u = py_strip (d_email data) ->
     update_account s instance data = Err ValidationError /\
     commit s (update_account s instance data) = s) /\
  (forall us instance e,
     (forall u, In u us -> User.email u = e ->
                User.pk u = User.pk instance) ->
     UserUpdateForm_clean_email us instance e = Ok e).
Proof.
  split; [|split].
  - intros s data u Hin Hne He.
    assert (E : register s data = Err ValidationError).
    { unfold register, UserRegisterForm_clean.
      destruct (register_email_used (users s) _ u Hin Hne He) as (e & ->).
      destruct (CharField_clean true _ (r_username data)); reflexivity. }
    rewrite E. split; reflexivity.
  - intros s i data u Hin Hpk He.
    assert (E : update_account s i data = Err ValidationError).
    { unfold update_account, UserUpdateForm_clean.
      destruct (update_email_used (users s) i _ u Hin Hpk He) as (e & ->).
      destruct (CharField_clean true _ (d_username data)); reflexivity. }
    rewrite E. split; reflexivity.
  - intros us i e H. unfold UserUpdateForm_clean_email.
    rewrite exists_row_filter_none; [rewrite andb_false_r; reflexivity|].
    intros x Hx. apply filter_In in Hx. destruct Hx as [Hx He].
    apply String.eqb_eq in He. apply negb_false_iff, N.eqb_eq.
    apply H; assumption.
Qed.

Lemma email_unique_when_given_witness :
  register (fw := sample_framework) sample_store taken_registration
  = Err ValidationError /\
  commit sample_store
    (register (fw := sample_framework) sample_store taken_registration)
  = sample_store.
Proof.
  apply (proj1 (email_unique_when_given sample_framework)
           sample_store taken_registration alice).
  - simpl. tauto.
  - vm_compute. discriminate.
  - reflexivity.
Defined.

(** ** Accounts: the profile form *)

Lemma update_profile_without_avatar_needs_a_stored_one :
  CharField_clean true (Some 500%nat) "hello" = Ok "hello" /\
  exists s',
    register (fw := sample_framework) sample_store new_registration = Ok s' /\
    In (Profile.mk 3 None "" "") (profiles s') /\
    update_profile (fw := sample_framework) s' (Profile.mk 3 None "" "")
      (mkProfileData (Some 5) "hello" None)
    = Err ValidationError.
Proof.
  split; [reflexivity|].
  eexists. split; [vm_compute; reflexivity|].
  split; [simpl; tauto | reflexivity].
Qed.

(** C9 (amended): when the avatar is omitted and the profile has a stored
    avatar, the update goes through, the avatar keeps its prior value and
    birth_date and bio are replaced by the given date and the cleaned bio;
    when the profile has no stored avatar, omitting it fails with
    ValidationError and the store is left as it was. *)
Theorem update_profile_keeps_a_stored_avatar (fw : Framework) :
  (forall s instance d raw_bio b,
     In instance (profiles s) ->
     Profile.avatar instance <> "" ->
     CharField_clean true (Some 500%nat) raw_bio = Ok b ->
     exists s',
       update_profile s instance (mkProfileData (Some d) raw_bio None)
       = Ok s' /\
       In (Profile.mk (Profile.user instance) (Some d) b
             (Profile.avatar instance)) (profiles s') /\
       forall q, In q (profiles s') ->
         Profile.user q = Profile.user instance ->
         q = Profile.mk (Profile.user instance) (Some d) b
               (Profile.avatar instance)) /\
  (forall s instance d raw_bio,
     Profile.avatar instance = "" ->
     update_profile s instance (mkProfileData d raw_bio None)
     = Err ValidationError /\
     commit s (update_profile s instance (mkProfileData d raw_bio None)) = s).
Proof.
  split.
  - intros s i d raw_bio b Hin Hav Hbio.
    unfold update_profile, ProfileUpdateForm_clean, ImageField_clean. simpl.
    rewrite Hbio. apply String.eqb_neq in Hav. rewrite Hav. simpl.
    assert (Hex : existsb (fun q => N.eqb (Profile.user q) (Profile.user i))
                    (profiles s) = true).
    { apply existsb_exists. exists i. split; [exact Hin | apply N.eqb_refl]. }
    rewrite Hex. eexists. split; [reflexivity|]. simpl. split.
    + apply in_map_iff. exists i. rewrite N.eqb_refl. auto.
    + intros q Hq Hu. apply in_map_iff in Hq. destruct Hq as (x & <- & _).
      destruct (N.eqb_spec (Profile.user x) (Profile.user i)) as [E|E];
        [reflexivity | contradiction].
  - intros s i d raw_bio Hav.
    assert (E : update_profile s i (mkProfileData d raw_bio None)
                = Err ValidationError).
    { unfold update_profile, ProfileUpdateForm_clean.
      cbn [p_birth_date p_bio p_avatar].
      replace (ImageField_clean true None (Profile.avatar i))
        with (@Err FileValue ValidationError)
        by (unfold ImageField_clean; rewrite Hav; reflexivity).
      destruct (DateField_clean true d);
        destruct (CharField_clean true (Some 500%nat) raw_bio);
        reflexivity. }
    rewrite E. split; reflexivity.
Qed.

Lemma update_profile_keeps_a_stored_avatar_witness :
  exists s',
    update_profile (fw := sample_framework) sample_store
      (Profile.mk 2 (Some 7) "hi" "a.png")
      (mkProfileData (Some 9) " about me " None) = Ok s' /\
    In (Profile.mk 2 (Some 9) "about me" "a.png") (profiles s').
Proof.
  destruct (proj1 (update_profile_keeps_a_stored_avatar sample_framework)
              sample_store (Profile.mk 2 (Some 7) "hi" "a.png") 9
              " about me " "about me") as (s' & H1 & H2 & _).
  - simpl. tauto.
  - simpl. discriminate.
  - reflexivity.
  - exists s'. split; assumption.
Defined.

(** * Further properties *)

(** ** What the collector collects *)

Section SubtreeFacts.
Context {A : Type}.
Variable pk_of : A -> N.
Variable parent_of : A -> option N.
Variable rows : list A.
Variable seeds : list N.

Lemma cascade_round_below (d : list N) :
  (forall x, In x d -> below pk_of parent_of rows seeds x) ->
  forall x, In x (cascade_round pk_of parent_of rows d) ->
            below pk_of parent_of rows seeds x.
Proof.
  intros Hd x Hx. unfold cascade_round in Hx.
  apply in_app_or in Hx. destruct Hx as [Hx|Hx]; [apply Hd, Hx|].
  apply in_map_iff in Hx. destruct Hx as (r & <- & Hr).
  apply filter_In in Hr. destruct Hr as [Hr Hb].
  apply andb_true_iff in Hb. destruct Hb as [Hp _].
  unfold parent_in in Hp. destruct (parent_of r) as [p|] eqn:E;
    [|discriminate].
  apply (below_child _ _ _ _ r p Hr E). apply Hd, mem_N_In, Hp.
Qed.

Lemma cascade_rounds_below (n : nat) (d : list N) :
  (forall x, In x d -> below pk_of parent_of rows seeds x) ->
  forall x, In x (cascade_rounds pk_of parent_of n rows d) ->
            below pk_of parent_of rows seeds x.
Proof.
  revert d. induction n as [|k IH]; simpl; intros d Hd; [exact Hd|].
  apply IH, cascade_round_below, Hd.
Qed.

(** The collected keys are exactly the keys at or below the seeds. *)
Lemma cascade_iff_below (x : N) :
  In x (cascade pk_of parent_of rows seeds) <->
  below pk_of parent_of rows seeds x.
Proof.
  split.
  - apply cascade_rounds_below. intros y Hy. apply below_seed, Hy.
  - induction 1 as [n Hn|r p Hr Hp _ IH].
    + apply cascade_incl, Hn.
    + apply mem_N_In.
      apply (cascade_is_closed pk_of parent_of rows seeds r Hr).
      unfold parent_in. rewrite Hp. apply mem_N_In, IH.
Qed.
End SubtreeFacts.

Lemma not_mem_N (n : N) (l : list N) : negb (mem_N n l) = true <-> ~ In n l.
Proof.
  rewrite negb_true_iff, <- mem_N_In.
  destruct (mem_N n l); split; try congruence; intros H; exfalso; auto.
Qed.

(** ** Deleting a category: the subtree *)

(** X1: deleting a category fails with ReferentialError, and leaves the
    store as it was, also when the post references a category anywhere
    below the deleted one: the cascade over [parent] brings the whole
    subtree under the protection of [Post.category]. *)
Theorem category_delete_protects_the_subtree (s : Store) (c : N)
  (p : Post.t) (Hp : In p (posts s))
  (Hc : below Category.pk Category.parent (categories s) [c]
          (Post.category p)) :
  Category_delete s c = Err ReferentialError /\
  commit s (Category_delete s c) = s.
Proof.
  assert (E : Category_delete s c = Err ReferentialError).
  { unfold Category_delete.
    replace (existsb _ (posts s)) with true; [reflexivity|].
    symmetry. apply existsb_exists. exists p. split; [exact Hp|].
    apply mem_N_In, cascade_iff_below, Hc. }
  rewrite E. split; reflexivity.
Qed.

Lemma category_delete_protects_the_subtree_witness :
  Category_delete nested_store 1 = Err ReferentialError /\
  commit nested_store (Category_delete nested_store 1) = nested_store.
Proof.
  apply (category_delete_protects_the_subtree nested_store 1
           (Post.mk (Some 1%N) "Web" "web" "" 2 "" "default.jpg"
              "published" 1 1 2 (Some 2%N) false)).
  - simpl. left. reflexivity.
  - apply (below_child Category.pk Category.parent
             (categories nested_store) [1%N] web 1%N).
    + simpl. right. left. reflexivity.
    + reflexivity.
    + apply below_seed. simpl. left. reflexivity.
Defined.

(** X2: a category deletion that goes through removes exactly the
    categories at or below the deleted one; no category that stays has
    lost its parent, no post referenced a removed category, and posts,
    comments, ratings and users are as they were. *)
Theorem category_delete_removes_the_subtree (s : Store) (c : N)
  (s' : Store) (H : Category_delete s c = Ok s') :
  (forall x, In x (categories s') <->
     In x (categories s) /\
     ~ below Category.pk Category.parent (categories s) [c]
         (Category.pk x)) /\
  (forall x y, In x (categories s') -> In y (categories s) ->
     Category.parent x = Some (Category.pk y) -> In y (categories s')) /\
  (forall p, In p (posts s) ->
     ~ below Category.pk Category.parent (categories s) [c]
         (Post.category p)) /\
  posts s' = posts s /\ comments s' = comments s /\
  ratings s' = ratings s /\ users s' = users s.
Proof.
  unfold Category_delete in H.
  destruct (existsb _ (posts s)) eqn:Echeck; [discriminate|].
  injection H as <-. simpl.
  assert (Hcat : forall x,
    In x (filter (fun x => negb (mem_N (Category.pk x)
            (cascade Category.pk Category.parent (categories s) [c])))
            (categories s)) <->
    In x (categories s) /\
    ~ below Category.pk Category.parent (categories s) [c] (Category.pk x)).
  { intros x. rewrite filter_In, not_mem_N, cascade_iff_below. tauto. }
  split; [exact Hcat|]. split; [|split; [|repeat split]].
  - intros x y Hx Hy Hpar. apply Hcat. split; [exact Hy|].
    intros Hb. apply Hcat in Hx. destruct Hx as [Hx Hn]. apply Hn.
    apply (below_child _ _ _ _ x (Category.pk y) Hx Hpar Hb).
  - intros p Hp Hb. apply cascade_iff_below, mem_N_In in Hb.
    assert (existsb
              (fun p => mem_N (Post.category p)
                          (cascade Category.pk Category.parent
                             (categories s) [c])) (posts s) = true)
      by (apply existsb_exists; exists p; auto).
    congruence.
Qed.

Lemma category_delete_removes_the_subtree_witness :
  exists s', Category_delete sample_store 2 = Ok s' /\
             categories s' = [tech] /\ posts s' = posts sample_store.
Proof.
  eexists. split; [reflexivity|]. split; [reflexivity|].
  apply (category_delete_removes_the_subtree sample_store 2 _ eq_refl).
Defined.

(** ** Deleting a comment *)

(** X3: deleting a comment removes exactly the comments at or below it in
    the reply tree; no comment that stays has lost its parent, and posts,
    ratings and users are as they were. *)
Theorem comment_delete_removes_the_replies (s : Store) (c : N) :
  (forall x, In x (comments (Comment_delete s c)) <->
     In x (comments s) /\
     ~ below Comment.pk Comment.parent (comments s) [c] (Comment.pk x)) /\
  (forall x y, In x (comments (Comment_delete s c)) -> In y (comments s) ->
     Comment.parent x = Some (Comment.pk y) ->
     In y (comments (Comment_delete s c))) /\
  posts (Comment_delete s c) = posts s /\
  ratings (Comment_delete s c) = ratings s /\
  users (Comment_delete s c) = users s.
Proof.
  unfold Comment_delete. simpl.
  assert (Hcom : forall x,
    In x (filter (fun x => negb (mem_N (Comment.pk x)
            (cascade Comment.pk Comment.parent (comments s) [c])))
            (comments s)) <->
    In x (comments s) /\
    ~ below Comment.pk Comment.parent (comments s) [c] (Comment.pk x)).
  { intros x. rewrite filter_In, not_mem_N, cascade_iff_below. tauto. }
  split; [exact Hcom|]. split; [|repeat split].
  intros x y Hx Hy Hpar. apply Hcom. split; [exact Hy|].
  intros Hb. apply Hcom in Hx. destruct Hx as [Hx Hn]. apply Hn.
  apply (below_child _ _ _ _ x (Comment.pk y) Hx Hpar Hb).
Qed.

Lemma comment_delete_removes_the_replies_witness :
  comments (Comment_delete nested_store 1)
  = [Comment.mk 3 1 1 "aside" 13 13 "published" None] /\
  ~ below Comment.pk Comment.parent (comments nested_store) [1%N] 3%N.
Proof.
  split; [reflexivity|].
  apply (proj1 (comment_delete_removes_the_replies nested_store 1)
           (Comment.mk 3 1 1 "aside" 13 13 "published" None)).
  simpl. left. reflexivity.
Defined.

(** ** Deleting a user: posts and comments *)

Lemma user_delete_check (s : Store) (u : N) :
  existsb (fun p => N.eqb (Post.author p) u) (posts s)
  && negb (existsb (fun x => N.eqb (User.pk x) Post_author_default)
             (filter (fun x => negb (N.eqb (User.pk x) u)) (users s)))
  = true <->
  (exists p, In p (posts s) /\ Post.author p = u) /\
  (u = Post_author_default \/ user_exists s Post_author_default = false).
Proof.
  rewrite andb_true_iff, negb_true_iff, existsb_exists.
  assert (Hdef :
    existsb (fun x => N.eqb (User.pk x) Post_author_default)
      (filter (fun x => negb (N.eqb (User.pk x) u)) (users s)) = false <->
    u = Post_author_default \/ user_exists s Post_author_default = false).
  { unfold user_exists. split.
    - intros H. destruct (N.eq_dec u Post_author_default) as [E|E];
        [left; exact E | right].
      destruct (existsb _ (users s)) eqn:Ex; [|reflexivity].
      apply existsb_exists in Ex. destruct Ex as (x & Hx & Ek).
      rewrite <- H. symmetry. apply existsb_exists. exists x.
      split; [|exact Ek]. apply filter_In. split; [exact Hx|].
      apply N.eqb_eq in Ek. apply negb_true_iff, N.eqb_neq. congruence.
    - intros H. destruct (existsb _ (filter _ _)) eqn:Ex; [|reflexivity].
      apply existsb_exists in Ex. destruct Ex as (x & Hx & Ek).
      apply filter_In in Hx. destruct Hx as [Hx Hne].
      apply negb_true_iff, N.eqb_neq in Hne. apply N.eqb_eq in Ek.
      destruct H as [H|H]; [congruence|].
      rewrite <- H. symmetry. apply existsb_exists. exists x.
      split; [exact Hx | apply N.eqb_eq, Ek]. }
  rewrite Hdef. split.
  - intros [(p & Hp & E) H]. split; [|exact H].
    exists p. split; [exact Hp | apply N.eqb_eq, E].
  - intros [(p & Hp & E) H]. split; [|exact H].
    exists p. split; [exact Hp | apply N.eqb_eq, E].
Qed.

(** X4: deleting a user fails, with IntegrityError and the store left as
    it was, exactly when the user is the author of a post and the default
    author (the user of key 1) would not be there to take it over: the
    user is that default author, or no user has key 1. *)
Theorem user_delete_fails_without_default_author (s : Store) (u : N) :
  (is_ok (User_delete s u) = false <->
   (exists p, In p (posts s) /\ Post.author p = u) /\
   (u = Post_author_default \/ user_exists s Post_author_default = false)) /\
  (is_ok (User_delete s u) = false ->
   User_delete s u = Err IntegrityError /\
   commit s (User_delete s u) = s).
Proof.
  pose proof (user_delete_check s u) as Hc. unfold User_delete.
  destruct (_ && _).
  - simpl. split; [|auto]. split; [intros _; apply Hc; reflexivity | auto].
  - simpl. split; [|discriminate]. split; [discriminate|].
    intros H. apply Hc in H. discriminate.
Qed.

Lemma user_delete_fails_without_default_author_witness :
  User_delete sample_store 1 = Err IntegrityError /\
  commit sample_store (User_delete sample_store 1) = sample_store.
Proof.
  apply (proj2 (user_delete_fails_without_default_author sample_store 1)).
  reflexivity.
Defined.



(** X6: a user deletion that goes through removes exactly the comments at
    or below a comment of that user in the reply tree, so also the replies
    other users wrote to them; no comment of the user stays and no comment
    that stays has lost its parent. *)
Theorem user_delete_removes_the_threads (s : Store) (u : N) (s' : Store)
  (H : User_delete s u = Ok s') :
  (forall x, In x (comments s') <->
     In x (comments s) /\
     ~ below Comment.pk Comment.parent (comments s)
         (map Comment.pk
            (filter (fun c => N.eqb (Comment.author c) u) (comments s)))
         (Comment.pk x)) /\
  (forall x, In x (comments s') -> Comment.author x <> u) /\
  (forall x y, In x (comments s') -> In y (comments s) ->
     Comment.parent x = Some (Comment.pk y) -> In y (comments s')).
Proof.
  unfold User_delete in H. destruct (_ && _); [discriminate|].
  injection H as <-. simpl. unfold doomed_comments.
  set (seeds := map Comment.pk
                  (filter (fun c => N.eqb (Comment.author c) u)
                     (comments s))).
  assert (Hcom : forall x,
    In x (filter (fun c => negb (mem_N (Comment.pk c)
            (cascade Comment.pk Comment.parent (comments s) seeds)))
            (comments s)) <->
    In x (comments s) /\
    ~ below Comment.pk Comment.parent (comments s) seeds (Comment.pk x)).
  { intros x. rewrite filter_In, not_mem_N, cascade_iff_below. tauto. }
  split; [exact Hcom|]. split.
  - intros x Hx E. apply Hcom in Hx. destruct Hx as [Hx Hn]. apply Hn.
    apply below_seed. unfold seeds. apply in_map, filter_In.
    split; [exact Hx | apply N.eqb_eq, E].
  - intros x y Hx Hy Hpar. apply Hcom. split; [exact Hy|].
    intros Hb. apply Hcom in Hx. destruct Hx as [Hx Hn]. apply Hn.
    apply (below_child _ _ _ _ x (Comment.pk y) Hx Hpar Hb).
Qed.

Lemma user_delete_removes_the_threads_witness :
  exists s', User_delete nested_store 2 = Ok s' /\
    comments s' = [Comment.mk 3 1 1 "aside" 13 13 "published" None] /\
    forall x, In x (comments s') -> Comment.author x <> 2%N.
Proof.
  eexists. split; [reflexivity|]. split; [reflexivity|].
  apply (user_delete_removes_the_threads nested_store 2 _ eq_refl).
Defined.

(** ** Scores across operations *)

Lemma spec_score_of_filter_post (rs : list Rating.t) (p q : N) :
  spec_score_of (filter (fun r => negb (N.eqb (Rating.post r) p)) rs) q =
  if N.eqb q p then 0 else spec_score_of rs q.
Proof.
  induction rs as [|r t IH]; simpl; [destruct (N.eqb q p); reflexivity|].
  destruct (N.eqb_spec (Rating.post r) p) as [E|E]; simpl.
  - rewrite IH. destruct (N.eqb_spec q p) as [E'|E']; [reflexivity|].
    destruct (N.eqb_spec (Rating.post r) q); [congruence | reflexivity].
  - rewrite IH. destruct (N.eqb_spec q p) as [E'|E'].
    + destruct (N.eqb_spec (Rating.post r) q); [congruence | reflexivity].
    + reflexivity.
Qed.

Lemma spec_score_of_split (f : Rating.t -> bool) (rs : list Rating.t)
  (q : N) :
  spec_score_of rs q =
  spec_score_of (filter f rs) q
  + spec_score_of (filter (fun r => negb (f r)) rs) q.
Proof.
  induction rs as [|r t IH]; simpl; [reflexivity|].
  destruct (f r); simpl; destruct (N.eqb (Rating.post r) q); lia.
Qed.

(** X7: deleting a post brings its score to 0 and leaves the score of
    every other post as it was. *)
Theorem post_delete_keeps_other_scores (s : Store) (p q : N) :
  Post_get_sum_rating (Post_delete s p) p = 0 /\
  (q <> p ->
   Post_get_sum_rating (Post_delete s p) q = Post_get_sum_rating s q).
Proof.
  rewrite !get_sum_rating_spec. unfold Post_delete. simpl.
  rewrite !spec_score_of_filter_post, N.eqb_refl. split; [reflexivity|].
  intros Hne. apply N.eqb_neq in Hne. rewrite Hne. reflexivity.
Qed.

Lemma post_delete_keeps_other_scores_witness :
  Post_get_sum_rating (Post_delete sample_store 3) 1 = 1.
Proof.
  rewrite (proj2 (post_delete_keeps_other_scores sample_store 3 1)).
  - reflexivity.
  - discriminate.
Defined.

(** X8: after a user deletion that goes through, the score of every post
    is its score before minus the sum of the votes that user cast on it;
    the votes of other users and the anonymous votes still count. *)
Theorem user_delete_takes_the_votes_back (s : Store) (u : N) (s' : Store)
  (post : N) (H : User_delete s u = Ok s') :
  Post_get_sum_rating s' post
  = Post_get_sum_rating s post - votes_of_user s u post.
Proof.
  apply user_delete_inv in H. destruct H as (_ & _ & _ & Hr).
  rewrite !get_sum_rating_spec, Hr. unfold votes_of_user.
  rewrite (spec_score_of_split (fun r => opt_N_eqb (Rating.user r) u)
             (ratings s) post).
  lia.
Qed.

Lemma user_delete_takes_the_votes_back_witness :
  exists s', User_delete sample_store 2 = Ok s' /\
    Post_get_sum_rating s' 1 = 1 - 2.
Proof.
  eexists. split; [reflexivity|].
  apply (user_delete_takes_the_votes_back sample_store 2 _ 1 eq_refl).
Defined.

(** X9: a Rating that the datastore accepts adds its value to the score of
    its post and changes the score of no other post; it is the one Rating
    of its (post, address) pair, its post exists, and its user, when it has
    one, exists: a vote without a user is accepted. *)
Theorem rating_create_adds_to_one_score (s : Store) (post : N)
  (user : option N) (value : Z) (ip : string) (now : Z) (s' : Store)
  (H : Rating_create s post user value ip now = Ok s') :
  Post_get_sum_rating s' post = Post_get_sum_rating s post + value /\
  (forall q, q <> post ->
     Post_get_sum_rating s' q = Post_get_sum_rating s q) /\
  ratings_for s post ip = 0%nat /\
  ratings_for s' post ip = 1%nat /\
  post_exists s post = true /\
  (forall n, user = Some n -> user_exists s n = true) /\
  posts s' = posts s /\ comments s' = comments s.
Proof.
  unfold Rating_create, Rating_unique_together in H.
  destruct (existsb (same_pair post ip) (ratings s)) eqn:Efree;
    simpl in H; [discriminate|].
  destruct (post_exists s post) eqn:Ep; simpl in H; [|discriminate].
  destruct (opt_user_exists s user) eqn:Eu; simpl in H; [|discriminate].
  injection H as <-. apply existsb_filter_nil in Efree.
  rewrite !get_sum_rating_spec. simpl. rewrite spec_score_of_app. simpl.
  rewrite N.eqb_refl. split; [reflexivity|]. split; [|split; [|split]].
  - intros q Hq. rewrite !get_sum_rating_spec. simpl.
    rewrite spec_score_of_app. simpl.
    destruct (N.eqb_spec post q); [congruence | lia].
  - unfold ratings_for. rewrite Efree. reflexivity.
  - unfold ratings_for. simpl. rewrite count_pair_app, Efree.
    unfold same_pair. simpl. rewrite N.eqb_refl, String.eqb_refl.
    reflexivity.
  - repeat split. intros n ->. exact Eu.
Qed.

Lemma rating_create_adds_to_one_score_witness :
  exists s', Rating_create sample_store 3 None (-1) "1.2.3.4" 50 = Ok s' /\
    Post_get_sum_rating s' 3 = 0 + -1.
Proof.
  eexists. split; [reflexivity|].
  apply (rating_create_adds_to_one_score sample_store 3 None (-1)
           "1.2.3.4" 50 _ eq_refl).
Defined.

(** ** Orderings *)

Lemma Rating_before_total (a b : Rating.t) :
  Rating_before a b = true \/ Rating_before b a = true.
Proof. unfold Rating_before. rewrite !Z.leb_le. lia. Qed.

Lemma Rating_before_trans (a b c : Rating.t) :
  Rating_before a b = true -> Rating_before b c = true ->
  Rating_before a c = true.
Proof. unfold Rating_before. rewrite !Z.leb_le. lia. Qed.

Lemma StronglySorted_impl {A : Type} (R R' : A -> A -> Prop) (l : list A) :
  (forall a b, R a b -> R' a b) -> StronglySorted R l -> StronglySorted R' l.
Proof.
  intros HR. induction 1 as [|x t Hs IH Hall]; constructor; [exact IH|].
  rewrite Forall_forall in *. auto.
Qed.

(** X10: the ratings of a post, as the post's related manager lists them,
    are exactly the stored ratings of that post, the newest first. *)
Theorem ratings_all_newest_first (s : Store) (post : N) :
  Permutation (Post_ratings_all s post)
    (filter (fun r => N.eqb (Rating.post r) post) (ratings s)) /\
  (forall r, In r (Post_ratings_all s post) <->
     In r (ratings s) /\ Rating.post r = post) /\
  StronglySorted
    (fun a b => Rating.time_create b <= Rating.time_create a)
    (Post_ratings_all s post).
Proof.
  unfold Post_ratings_all. split; [apply order_by_perm|]. split.
  - intros r. rewrite order_by_In, filter_In, N.eqb_eq. tauto.
  - apply (StronglySorted_impl (fun a b => Rating_before a b = true)).
    + intros a b Hab. apply Z.leb_le, Hab.
    + apply order_by_sorted;
        [apply Rating_before_total | apply Rating_before_trans].
Qed.

(** X11: the default manager of posts lists every stored post, the drafts
    too, pinned posts first and then the newest first; every post that
    list_published returns is among them. *)
Theorem post_objects_all_lists_drafts_too (s : Store) :
  Permutation (Post_objects_all s) (posts s) /\
  StronglySorted fixed_then_recent (Post_objects_all s) /\
  (forall p, In p (posts s) -> Post.status p = "draft" ->
     In p (Post_objects_all s)) /\
  (forall j, In j (list_published s) ->
     In (post_of j) (Post_objects_all s)).
Proof.
  unfold Post_objects_all. split; [apply order_by_perm|]. split; [|split].
  - apply (StronglySorted_impl (fun a b => Post_before a b = true)).
    + intros a b. apply Post_before_spec.
    + apply order_by_sorted;
        [apply Post_before_total | apply Post_before_trans].
  - intros p Hp _. apply order_by_In, Hp.
  - intros j Hj. apply order_by_In.
    unfold list_published, PostManager_get_queryset in Hj.
    apply order_by_In, filter_In in Hj. destruct Hj as [Hj _].
    unfold select_related_author_category in Hj.
    apply in_flat_map in Hj. destruct Hj as (p & Hp & Hj).
    apply in_flat_map in Hj. destruct Hj as (u & _ & Hj).
    apply in_map_iff in Hj. destruct Hj as (c & <- & _). exact Hp.
Qed.

Lemma ratings_all_newest_first_witness :
  map Rating.pk (Post_ratings_all sample_store 1) = [3%N; 2%N; 1%N] /\
  In (Rating.mk 2 1 None (-1) 31 "5.6.7.8") (ratings sample_store).
Proof.
  split; [reflexivity|].
  apply (proj1 (proj1 (proj2 (ratings_all_newest_first sample_store 1))
                  (Rating.mk 2 1 None (-1) 31 "5.6.7.8"))).
  simpl. tauto.
Defined.

Lemma post_objects_all_lists_drafts_too_witness :
  map Post.pk (Post_objects_all sample_store)
  = [Some 3%N; Some 2%N; Some 1%N] /\
  In (sample_post 2 "tech-2" "draft" 20 false) (Post_objects_all sample_store).
Proof.
  split; [reflexivity|].
  apply (proj1 (proj2 (proj2 (post_objects_all_lists_drafts_too
                                sample_store)))).
  - simpl. tauto.
  - reflexivity.
Defined.

(** ** Saving a post: keys, timestamps, frame *)

Lemma Post_save_unfold (slugify : string -> string) (s : Store)
  (p : Post.t) (now : Z) :
  exists sl,
    ~ In sl (other_slugs (posts s) (Post.pk p)) /\
    Post_save slugify s p now = Model_save_post s (Post_set_slug p sl) now.
Proof.
  destruct (unique_slugify_total slugify (posts s) (Post.pk p)
              (Post.title p) (Post.slug p)) as (sl & E & Hfree).
  exists sl. split; [exact Hfree|]. unfold Post_save. rewrite E.
  reflexivity.
Qed.





(** X14: saving a post whose key is stored replaces the row of that key
    and no other: the table keeps its length and its keys, every row of
    another key is as it was, and the row of the key takes the title,
    status and creation time of the instance with the update time set to
    the time of the save. *)
Theorem post_save_updates_one_row (slugify : string -> string) (s : Store)
  (p : Post.t) (now : Z) (s' : Store) (n : N)
  (Hpk : Post.pk p = Some n) (Hex : post_exists s n = true)
  (H : Post_save slugify s p now = Ok s') :
  List.length (posts s') = List.length (posts s) /\
  map Post.pk (posts s') = map Post.pk (posts s) /\
  (forall q, In q (posts s) -> Post.pk q <> Some n -> In q (posts s')) /\
  (forall q, In q (posts s') -> Post.pk q <> Some n -> In q (posts s)) /\
  (exists q, In q (posts s') /\ Post.pk q = Some n) /\
  (forall q, In q (posts s') -> Post.pk q = Some n ->
     Post.update q = now /\ Post.create q = Post.create p /\
     Post.title q = Post.title p /\ Post.status q = Post.status p /\
     Post.fixed q = Post.fixed p) /\
  comments s' = comments s /\ ratings s' = ratings s.
Proof.
  destruct (Post_save_unfold slugify s p now) as (sl & Hfree & E).
  rewrite E in H. unfold Model_save_post in H.
  destruct (Post_fk_ok s (Post_set_slug p sl)); simpl in H; [|discriminate].
  rewrite Hpk, Hex in H. injection H as <-. simpl.
  set (row := Post_stamp (Post_set_slug p sl) (Some n) (Post.create p) now).
  assert (Hrow : forall q, Post.has_pk n q = true ->
                           Post.pk row = Post.pk q).
  { intros q Hq. apply has_pk_iff in Hq. rewrite Hq. reflexivity. }
  split; [apply length_map|]. split; [|split; [|split; [|split; [|split]]]].
  - rewrite map_map. apply map_ext. intros q.
    destruct (Post.has_pk n q) eqn:Eq; [apply Hrow, Eq | reflexivity].
  - intros q Hq Hne. apply in_map_iff. exists q. split; [|exact Hq].
    destruct (Post.has_pk n q) eqn:Eq; [|reflexivity].
    apply has_pk_iff in Eq. contradiction.
  - intros q Hq Hne. apply in_map_iff in Hq. destruct Hq as (x & <- & Hx).
    destruct (Post.has_pk n x); [simpl in Hne; congruence | exact Hx].
  - unfold post_exists in Hex. apply existsb_exists in Hex.
    destruct Hex as (x & Hx & Ex). exists row. split; [|reflexivity].
    apply in_map_iff. exists x. rewrite Ex. auto.
  - intros q Hq Hn. apply in_map_iff in Hq. destruct Hq as (x & <- & Hx).
    destruct (Post.has_pk n x) eqn:Ex; [simpl; auto|].
    apply has_pk_iff in Hn. congruence.
  - split; reflexivity.
Qed.

Lemma post_save_updates_one_row_witness :
  exists s',
    Post_save sample_slugify sample_store
      (Post.mk (Some 2%N) "Draft no more" "" "" 1 "" "default.jpg"
         "published" 20 20 1 None false) 60 = Ok s' /\
    map Post.pk (posts s') = map Post.pk (posts sample_store).
Proof.
  eexists. split; [vm_compute; reflexivity|].
  apply (post_save_updates_one_row sample_slugify sample_store
           (Post.mk (Some 2%N) "Draft no more" "" "" 1 "" "default.jpg"
              "published" 20 20 1 None false) 60 _ 2 eq_refl eq_refl
           eq_refl).
Defined.

(** ** Saving, then listing *)

Lemma Model_save_post_row (s : Store) (p : Post.t) (now : Z) (s' : Store) :
  Model_save_post s p now = Ok s' ->
  exists k c, In (Post_stamp p k c now) (posts s').
Proof.
  unfold Model_save_post. destruct (Post_fk_ok s p); [|discriminate].
  simpl. destruct (Post.pk p) as [n|]; [destruct (post_exists s n) eqn:Ex|];
    intros [= <-]; simpl.
  - exists (Some n), (Post.create p).
    unfold post_exists in Ex. apply existsb_exists in Ex.
    destruct Ex as (x & Hx & Ex). apply in_map_iff. exists x.
    rewrite Ex. auto.
  - exists (Some n), now. apply in_or_app. right. left. reflexivity.
  - exists (Some (fresh_pk (stored_post_pks s))), now.
    apply in_or_app. right. left. reflexivity.
Qed.

(** X15: in a store whose keys are unique and whose posts have their
    author and category, a post that was just saved is returned by
    list_published exactly when it was saved with the status published. *)
Theorem saved_post_is_listed_iff_published (slugify : string -> string)
  (s : Store) (p : Post.t) (now : Z) (s' : Store)
  (Hj : posts_joinable s) (H : Post_save slugify s p now = Ok s') :
  exists row,
    In row (posts s') /\
    Post.title row = Post.title p /\ Post.status row = Post.status p /\
    Post.update row = now /\
    (In row (map post_of (list_published s')) <->
     Post.status p = "published").
Proof.
  destruct (Post_save_unfold slugify s p now) as (sl & _ & E).
  rewrite E in H.
  destruct (Model_save_post_row _ _ _ _ H) as (k & c & Hrow).
  pose proof (Model_save_post_joinable _ _ _ _ H Hj) as Hj'.
  destruct (list_published_on_joinable s' Hj') as (Hperm & _).
  exists (Post_stamp (Post_set_slug p sl) k c now).
  split; [exact Hrow|]. repeat (split; [reflexivity|]).
  split.
  - intros Hin. apply (Permutation_in _ Hperm), filter_In in Hin.
    destruct Hin as [_ Hpub]. apply String.eqb_eq in Hpub. exact Hpub.
  - intros Hpub. apply (Permutation_in _ (Permutation_sym Hperm)).
    apply filter_In. split; [exact Hrow|].
    unfold is_published. simpl. apply String.eqb_eq, Hpub.
Qed.

Lemma saved_post_is_listed_iff_published_witness :
  exists s' row,
    Post_save sample_slugify sample_store duplicate_post 50 = Ok s' /\
    In row (posts s') /\ Post.title row = "Tech" /\
    In row (map post_of (list_published s')).
Proof.
  assert (Hj : posts_joinable sample_store).
  { split; [|split].
    - repeat constructor; simpl; intuition discriminate.
    - repeat constructor; simpl; intuition discriminate.
    - intros p [<-|[<-|[<-|[]]]]; split; reflexivity. }
  destruct (saved_post_is_listed_iff_published sample_slugify sample_store
              duplicate_post 50
              (commit sample_store
                 (Post_save sample_slugify sample_store duplicate_post 50))
              Hj) as (row & Hin & Ht & _ & _ & Hiff).
  - vm_compute. reflexivity.
  - eexists. exists row. split; [vm_compute; reflexivity|].
    split; [exact Hin|]. split; [exact Ht|]. apply Hiff. reflexivity.
Defined.

(** ** Accounts: what a valid update form guarantees *)

Lemma CharField_clean_ok (required : bool) (n : nat) (raw v : string) :
  CharField_clean required (Some n) raw = Ok v ->
  v = py_strip raw /\ (String.length v <= n)%nat /\
  (required = true -> v <> "").
Proof.
  unfold CharField_clean.
  destruct (String.eqb (py_strip raw) "") eqn:E.
  - destruct required; [discriminate|]. intros [= <-].
    apply String.eqb_eq in E. rewrite E. simpl.
    split; [reflexivity|]. split; [lia | discriminate].
  - destruct (has_null (py_strip raw)); [discriminate|].
    destruct (n <? String.length (py_strip raw))%nat eqn:El; [discriminate|].
    intros [= <-]. apply Nat.ltb_ge in El. apply String.eqb_neq in E.
    auto.
Qed.

Lemma exists_row_false {A : Type} (f : A -> bool) (l : list A) :
  exists_row (filter f l) = false -> forall x, In x l -> f x = false.
Proof.
  intros H x Hx. destruct (f x) eqn:E; [|reflexivity].
  rewrite (exists_row_filter f l x Hx E) in H. discriminate.
Qed.

Lemma EmailField_clean_required_ok (fw : Framework) (n : nat)
  (raw e : string) :
  EmailField_clean true (Some n) raw = Ok e -> e = py_strip raw /\ e <> "".
Proof.
  unfold EmailField_clean, bind.
  destruct (CharField_clean true (Some n) raw) as [v|] eqn:Ec;
    [|discriminate].
  apply CharField_clean_ok in Ec. destruct Ec as (Ec1 & _ & Ec3).
  destruct (String.eqb v ""); [intros [= <-]; auto|].
  destruct (validate_email v); [intros [= <-]; auto | discriminate].
Qed.

Lemma UserUpdateForm_clean_email_free (fw : Framework) (us : list User.t)
  (instance : User.t) (data : AccountData) (row : User.t) :
  UserUpdateForm_clean us instance data = Ok row ->
  User.pk row = User.pk instance /\
  forall x, In x us -> User.pk x <> User.pk instance ->
            User.email x <> User.email row.
Proof.
  intros H. split; [apply (UserUpdateForm_clean_pk us instance data), H|].
  unfold UserUpdateForm_clean in H.
  destruct (CharField_clean true _ (d_username data)); [|discriminate].
  destruct (EmailField_clean true _ (d_email data)) as [e0|] eqn:Ee0;
    [|discriminate].
  apply EmailField_clean_required_ok in Ee0. destruct Ee0 as [_ Hne].
  simpl in H. unfold UserUpdateForm_clean_email in H.
  destruct (negb (String.eqb e0 "") && _) eqn:Echeck; [discriminate|].
  destruct (CharField_clean true _ (d_first_name data)); [|discriminate].
  destruct (CharField_clean true _ (d_last_name data)); [|discriminate].
  destruct (validate_username _ && _); [|discriminate].
  injection H as <-. simpl. intros x Hx Hpk C.
  apply String.eqb_neq in Hne. rewrite Hne in Echeck. simpl in Echeck.
  assert (Hin : In x (filter (fun u => String.eqb (User.email u) e0) us))
    by (apply filter_In; split; [exact Hx | apply String.eqb_eq, C]).
  pose proof (exists_row_false _ _ Echeck x Hin) as Hf.
  apply negb_false_iff, N.eqb_eq in Hf. contradiction.
Qed.

(** X16: when the account update form is valid, the row it saves has the
    key and the password of the user being updated and the stripped
    username, e-mail address and names of the data; none of the four is
    empty, username and names have at most 100 characters, and no other
    user has that e-mail address or that username. *)
Theorem user_update_form_valid_row (fw : Framework) (us : list User.t)
  (instance : User.t) (data : AccountData) (row : User.t)
  (H : UserUpdateForm_clean us instance data = Ok row) :
  User.pk row = User.pk instance /\
  User.password row = User.password instance /\
  User.username row = py_strip (d_username data) /\
  User.email row = py_strip (d_email data) /\
  User.first_name row = py_strip (d_first_name data) /\
  User.last_name row = py_strip (d_last_name data) /\
  User.username row <> "" /\ User.email row <> "" /\
  User.first_name row <> "" /\ User.last_name row <> "" /\
  (String.length (User.username row) <= 100)%nat /\
  (String.length (User.first_name row) <= 100)%nat /\
  (String.length (User.last_name row) <= 100)%nat /\
  (forall x, In x us -> User.pk x <> User.pk instance ->
     User.email x <> User.email row /\
     User.username x <> User.username row).
Proof.
  unfold UserUpdateForm_clean in H.
  destruct (CharField_clean true (Some 100%nat) (d_username data))
    as [u|] eqn:Eu; [|discriminate].
  destruct (EmailField_clean true (Some 254%nat) (d_email data))
    as [e0|] eqn:Ee0; [|discriminate].
  simpl in H.
  destruct (UserUpdateForm_clean_email us instance e0) as [e|] eqn:Ee;
    [|discriminate].
  destruct (CharField_clean true (Some 100%nat) (d_first_name data))
    as [f|] eqn:Ef; [|discriminate].
  destruct (CharField_clean true (Some 100%nat) (d_last_name data))
    as [l|] eqn:El; [|discriminate].
  destruct (validate_username u && _) eqn:Ev; [|discriminate].
  injection H as <-. simpl.
  apply andb_true_iff in Ev. destruct Ev as [_ Htaken].
  apply negb_true_iff in Htaken.
  apply CharField_clean_ok in Eu, Ef, El.
  destruct Eu as (Eu1 & Eu2 & Eu3), Ef as (Ef1 & Ef2 & Ef3),
           El as (El1 & El2 & El3).
  assert (He0 : e0 = py_strip (d_email data) /\ e0 <> "").
  { unfold EmailField_clean, bind in Ee0.
    destruct (CharField_clean true (Some 254%nat) (d_email data))
      as [v|] eqn:Ec; [|discriminate].
    apply CharField_clean_ok in Ec. destruct Ec as (Ec1 & _ & Ec3).
    destruct (String.eqb v ""); [injection Ee0 as <-; auto|].
    destruct (validate_email v); [injection Ee0 as <-; auto | discriminate]. }
  destruct He0 as [He1 He2].
  unfold UserUpdateForm_clean_email in Ee.
  destruct (negb (String.eqb e0 "") && _) eqn:Echeck; [discriminate|].
  injection Ee as <-.
  apply String.eqb_neq in He2. rewrite He2 in Echeck. simpl in Echeck.
  repeat (split; [auto; fail|]).
  split; [apply String.eqb_neq, He2|].
  repeat (split; [auto; fail|]).
  intros x Hx Hpk. split.
  - intros C.
    assert (Hin : In x (filter (fun u => String.eqb (User.email u) e0) us))
      by (apply filter_In; split; [exact Hx | apply String.eqb_eq, C]).
    pose proof (exists_row_false _ _ Echeck x Hin) as Hf.
    apply negb_false_iff, N.eqb_eq in Hf. contradiction.
  - intros C. unfold username_taken in Htaken.
    assert (Hin : In x (filter (fun y => String.eqb (User.username y) u) us))
      by (apply filter_In; split; [exact Hx | apply String.eqb_eq, C]).
    pose proof (exists_row_false _ _ Htaken x Hin) as Hf.
    apply negb_false_iff in Hf. simpl in Hf.
    apply N.eqb_eq in Hf. congruence.
Qed.

Lemma user_update_form_valid_row_witness :
  exists row,
    UserUpdateForm_clean (fw := sample_framework) (users sample_store) bob
      (mkAccountData " bobby " "b@x.com" "Bob" "B") = Ok row /\
    User.username row = "bobby" /\ User.password row = "h2".
Proof.
  eexists. split; [vm_compute; reflexivity|].
  destruct (user_update_form_valid_row sample_framework
              (users sample_store) bob
              (mkAccountData " bobby " "b@x.com" "Bob" "B") _ eq_refl)
    as (_ & Hp & Hu & _).
  split; [exact Hu | exact Hp].
Defined.

(** ** Accounts: e-mail addresses stay distinct *)

Lemma emails_in_use_app (us : list User.t) (row : User.t) :
  emails_in_use (us ++ [row]) =
  emails_in_use us
  ++ (if String.eqb (User.email row) "" then [] else [User.email row]).
Proof.
  unfold emails_in_use. rewrite map_app, filter_app. simpl.
  destruct (String.eqb (User.email row) ""); reflexivity.
Qed.

Lemma emails_in_use_In (us : list User.t) (e : string) :
  In e (emails_in_use us) <->
  e <> "" /\ exists x, In x us /\ User.email x = e.
Proof.
  unfold emails_in_use. rewrite filter_In, in_map_iff, negb_true_iff.
  rewrite String.eqb_neq. split.
  - intros [(x & E & Hx) Hne]. split; [exact Hne | exists x; auto].
  - intros [Hne (x & Hx & E)]. split; [exists x; auto | exact Hne].
Qed.

Lemma emails_add_user (us : list User.t) (row : User.t) :
  NoDup (emails_in_use us) ->
  (User.email row = "" \/
   forall x, In x us -> User.email x <> User.email row) ->
  NoDup (emails_in_use (us ++ [row])).
Proof.
  intros Hnd Hrow. rewrite emails_in_use_app.
  destruct (String.eqb (User.email row) "") eqn:E;
    [rewrite app_nil_r; exact Hnd|].
  apply NoDup_snoc; [exact Hnd|]. intros C.
  apply emails_in_use_In in C. destruct C as [_ (x & Hx & Ex)].
  destruct Hrow as [Hrow|Hrow].
  - apply String.eqb_neq in E. contradiction.
  - apply (Hrow x Hx Ex).
Qed.

Lemma emails_drop_users (h : User.t -> bool) (us : list User.t) :
  NoDup (emails_in_use us) -> NoDup (emails_in_use (filter h us)).
Proof.
  unfold emails_in_use. induction us as [|x t IH]; simpl; intros H;
    [constructor|].
  assert (Ht : NoDup (filter (fun e => negb (String.eqb e ""))
                        (map User.email t))).
  { destruct (negb (String.eqb (User.email x) ""));
      [inversion H; assumption | exact H]. }
  destruct (h x); simpl; [|apply IH, Ht].
  destruct (negb (String.eqb (User.email x) "")) eqn:E; [|apply IH, Ht].
  inversion H as [|? ? Hx _]; subst. constructor; [|apply IH, Ht].
  intros C. apply Hx. apply filter_In in C. destruct C as [C Hne].
  apply filter_In. split; [|exact Hne].
  apply in_map_iff in C. destruct C as (y & Ey & Hy).
  apply filter_In in Hy. apply in_map_iff. exists y. tauto.
Qed.

Lemma emails_replace_user (n : N) (row : User.t) (us : list User.t) :
  User.pk row = n ->
  NoDup (map User.pk us) ->
  NoDup (emails_in_use us) ->
  (forall x, In x us -> User.pk x <> n -> User.email x <> User.email row) ->
  NoDup (emails_in_use
           (map (fun q => if N.eqb (User.pk q) n then row else q) us)).
Proof.
  intros Hrow. induction us as [|x t IH]; intros Hk Hnd Hfree;
    [constructor|].
  inversion Hk as [|? ? Hkx Hkt]; subst.
  assert (Ht : NoDup (emails_in_use t)).
  { unfold emails_in_use in *. simpl in Hnd.
    destruct (negb (String.eqb (User.email x) ""));
      [inversion Hnd; assumption | exact Hnd]. }
  simpl. destruct (N.eqb_spec (User.pk x) (User.pk row)) as [E|E].
  - assert (Hmap : map (fun q => if N.eqb (User.pk q) (User.pk row)
                                 then row else q) t = t).
    { rewrite <- (map_id t) at 2. apply map_ext_in. intros y Hy.
      destruct (N.eqb_spec (User.pk y) (User.pk row)) as [E'|E'];
        [|reflexivity].
      exfalso. apply Hkx. rewrite E, <- E'. apply in_map, Hy. }
    rewrite Hmap. change (row :: t) with ([row] ++ t).
    unfold emails_in_use. simpl.
    destruct (negb (String.eqb (User.email row) "")) eqn:Ene; [|exact Ht].
    constructor; [|exact Ht]. intros C.
    apply (emails_in_use_In t) in C. destruct C as [_ (y & Hy & Ey)].
    apply (Hfree y (or_intror Hy)); [|exact Ey].
    intros C. apply Hkx. rewrite E, <- C. apply in_map, Hy.
  - specialize (IH Hkt Ht (fun y Hy => Hfree y (or_intror Hy))).
    unfold emails_in_use in *. simpl.
    destruct (negb (String.eqb (User.email x) "")) eqn:Ene; [|exact IH].
    constructor; [|exact IH]. intros C.
    apply filter_In in C. destruct C as [C _].
    apply in_map_iff in C. destruct C as (y & Ey & Hy).
    apply in_map_iff in Hy. destruct Hy as (z & <- & Hz).
    destruct (N.eqb_spec (User.pk z) (User.pk row)) as [E'|E'].
    + apply (Hfree x (or_introl eq_refl) E). symmetry. exact Ey.
    + simpl in Hnd. rewrite Ene in Hnd.
      inversion Hnd as [|? ? Hx _]; subst. apply Hx.
      apply filter_In. split; [|exact Ene].
      rewrite <- Ey. apply in_map, Hz.
Qed.

Lemma emails_same_row (us : list User.t) (x y : User.t) :
  NoDup (emails_in_use us) -> In x us -> In y us ->
  User.email x = User.email y -> User.email x <> "" -> x = y.
Proof.
  unfold emails_in_use. induction us as [|z t IH]; simpl;
    intros Hnd Hx Hy E Hne; [destruct Hx|].
  assert (Hin : forall w, In w t -> User.email w = User.email x ->
            In (User.email x)
              (filter (fun e => negb (String.eqb e "")) (map User.email t))).
  { intros w Hw Ew. apply filter_In. split.
    - rewrite <- Ew. apply in_map, Hw.
    - apply negb_true_iff, String.eqb_neq, Hne. }
  destruct Hx as [->|Hx], Hy as [->|Hy]; [reflexivity| | |].
  - exfalso. apply String.eqb_neq in Hne. rewrite Hne in Hnd. simpl in Hnd.
    inversion Hnd as [|? ? Hz _]; subst. apply Hz.
    apply (Hin y Hy). symmetry. exact E.
  - exfalso. rewrite <- E in Hnd. apply String.eqb_neq in Hne.
    rewrite Hne in Hnd. simpl in Hnd.
    inversion Hnd as [|? ? Hz _]; subst. apply Hz.
    apply (Hin x Hx eq_refl).
  - apply IH; auto.
    destruct (negb (String.eqb (User.email z) ""));
      [inversion Hnd; assumption | exact Hnd].
Qed.

Section EmailFacts.
Context {fw : Framework}.
Variable slugify : string -> string.

Lemma register_keeps_emails (s : Store) (data : RegisterData) (s' : Store) :
  register s data = Ok s' -> emails_distinct s -> emails_distinct s'.
Proof.
  unfold register, bind, UserRegisterForm_clean.
  destruct (CharField_clean true _ (r_username data)); [|discriminate].
  destruct (EmailField_clean false _ (r_email data)) as [e0|];
    [|discriminate].
  simpl. unfold UserRegisterForm_clean_email.
  destruct (negb (String.eqb e0 "") && _) eqn:Echeck; [discriminate|].
  destruct (CharField_clean false _ (r_first_name data)); [|discriminate].
  destruct (CharField_clean false _ (r_last_name data)); [|discriminate].
  destruct (_ && validate_password _); [|discriminate].
  intros [= <-] [Hk He]. split; simpl.
  - rewrite map_app. apply NoDup_snoc; [exact Hk|]. simpl.
    intros C. apply fresh_pk_gt in C. lia.
  - apply emails_add_user; [exact He|]. simpl.
    destruct (String.eqb e0 "") eqn:E0.
    + left. apply String.eqb_eq, E0.
    + right. intros x Hx C. simpl in Echeck.
      pose proof (exists_row_false _ _ Echeck x Hx) as Hf.
      apply String.eqb_neq in Hf. contradiction.
Qed.

Lemma update_account_keeps_emails (s : Store) (i : User.t)
  (data : AccountData) (s' : Store) :
  update_account s i data = Ok s' -> emails_distinct s -> emails_distinct s'.
Proof.
  unfold update_account, bind.
  destruct (UserUpdateForm_clean (users s) i data) as [row|] eqn:E;
    [|discriminate].
  destruct (UserUpdateForm_clean_email_free fw _ _ _ _ E) as (Hpk & Hfree).
  intros [= <-] [Hk He]. unfold emails_distinct. simpl.
  destruct (user_exists s (User.pk i)) eqn:Ex.
  - split.
    + rewrite map_map.
      replace (map (fun x => User.pk (if N.eqb (User.pk x) (User.pk i)
                                      then row else x)) (users s))
        with (map User.pk (users s)); [exact Hk|].
      apply map_ext. intros x.
      destruct (N.eqb_spec (User.pk x) (User.pk i)); congruence.
    + apply emails_replace_user; auto.
  - assert (Hnone : forall x, In x (users s) -> User.pk x <> User.pk i).
    { intros x Hx C. unfold user_exists in Ex.
      assert (existsb (fun u => N.eqb (User.pk u) (User.pk i)) (users s)
              = true)
        by (apply existsb_exists; exists x; split;
            [exact Hx | apply N.eqb_eq, C]).
      congruence. }
    split.
    + rewrite map_app. apply NoDup_snoc; [exact Hk|]. simpl.
      intros C. apply in_map_iff in C. destruct C as (x & Ex' & Hx).
      apply (Hnone x Hx). congruence.
    + apply emails_add_user; [exact He|]. right. intros x Hx.
      apply (Hfree x Hx (Hnone x Hx)).
Qed.

Lemma emails_distinct_same (s s' : Store) :
  users s' = users s -> emails_distinct s -> emails_distinct s'.
Proof. unfold emails_distinct. intros ->. tauto. Qed.

Lemma step_keeps_emails (s s' : Store) :
  step slugify s s' -> emails_distinct s -> emails_distinct s'.
Proof.
  intros H Hok. destruct H as
    [s d s' H|s i d s' H|s i d s' H|s po a v u n s' H|s p n s' H|s p
    |s u s' H|s c s' H].
  - apply (register_keeps_emails s d); assumption.
  - apply (update_account_keeps_emails s i d); assumption.
  - unfold update_profile, bind in H.
    destruct (ProfileUpdateForm_clean i d); [|discriminate].
    injection H as <-. exact Hok.
  - apply cast_vote_inv in H. destruct H as (_ & _ & ->). exact Hok.
  - apply (emails_distinct_same s); [|exact Hok].
    unfold Post_save, bind in H.
    destruct (unique_slugify _ _ _ _ _); [|discriminate].
    unfold Model_save_post in H.
    destruct (Post_fk_ok s _); [|discriminate]. simpl in H.
    destruct (Post.pk _) as [k|]; [destruct (post_exists s k)|];
      injection H as <-; reflexivity.
  - exact Hok.
  - apply user_delete_inv in H. destruct H as (Hu & _).
    destruct Hok as [Hk He]. unfold emails_distinct. rewrite Hu.
    split; [apply NoDup_map_filter, Hk | apply emails_drop_users, He].
  - unfold Category_delete in H.
    destruct (existsb _ (posts s)); [discriminate|].
    injection H as <-. exact Hok.
Qed.

Lemma reaches_keeps_emails (s0 s : Store) :
  reaches slugify s0 s -> emails_distinct s0 -> emails_distinct s.
Proof.
  induction 1 as [|s s' _ IH Hstep]; intros H0; [exact H0|].
  apply (step_keeps_emails s); auto.
Qed.
End EmailFacts.

(** X17: through every sequence of operations, from a store in which the
    users have distinct keys and no two of them share an e-mail address
    that is not empty, the same holds of the store reached: two stored
    users with the same address that is not empty are one and the same
    row. *)
Theorem emails_stay_distinct (fw : Framework) (slugify : string -> string)
  (s0 s : Store) (H0 : emails_distinct s0) (Hr : reaches slugify s0 s) :
  emails_distinct s /\
  forall x y, In x (users s) -> In y (users s) ->
    User.email x = User.email y -> User.email x <> "" -> x = y.
Proof.
  pose proof (reaches_keeps_emails slugify s0 s Hr H0) as H.
  split; [exact H|]. intros x y. apply emails_same_row, H.
Qed.

Lemma emails_stay_distinct_witness :
  exists s',
    register (fw := sample_framework) sample_store new_registration = Ok s' /\
    emails_distinct s'.
Proof.
  assert (H0 : emails_distinct sample_store).
  { split; simpl; repeat constructor; simpl; intuition discriminate. }
  eexists. split; [vm_compute; reflexivity|].
  apply (emails_stay_distinct sample_framework sample_slugify
           sample_store _ H0).
  apply (reaches_step _ _ sample_store); [apply reaches_here|].
  apply (step_register _ sample_store new_registration).
  vm_compute. reflexivity.
Defined.

(** ** Accounts: what a valid profile form guarantees *)

(** X18: when the profile form is valid, the row it saves belongs to the
    same user, has the given birth date, which is not missing, and the
    stripped bio, which is not empty and has at most 500 characters; its
    avatar is either the avatar the profile had, which then is not empty
    and no named file was uploaded, or the stored name of an uploaded
    file that has a name, is not empty and is an image. *)
Theorem profile_form_valid_row (fw : Framework) (instance : Profile.t)
  (data : ProfileData) (row : Profile.t)
  (H : ProfileUpdateForm_clean instance data = Ok row) :
  Profile.user row = Profile.user instance /\
  Profile.birth_date row = p_birth_date data /\
  p_birth_date data <> None /\
  Profile.bio row = py_strip (p_bio data) /\
  Profile.bio row <> "" /\
  (String.length (Profile.bio row) <= 500)%nat /\
  ((Profile.avatar row = Profile.avatar instance /\
    Profile.avatar instance <> "" /\ file_given (p_avatar data) = false) \/
   (exists f, p_avatar data = Some f /\
      Profile.avatar row = storage_save (file_name f) /\
      file_name f <> "" /\ file_size f <> 0%N /\ file_is_image f = true)).
Proof.
  unfold ProfileUpdateForm_clean in H.
  destruct (p_birth_date data) as [d|] eqn:Ed; simpl in H; [|discriminate].
  destruct (CharField_clean true (Some 500%nat) (p_bio data)) as [b|] eqn:Eb;
    [|discriminate].
  apply CharField_clean_ok in Eb. destruct Eb as (Eb1 & Eb2 & Eb3).
  unfold ImageField_clean in H.
  destruct (file_given (p_avatar data)) eqn:Eg; simpl in H.
  - destruct (p_avatar data) as [f|]; [|discriminate].
    destruct (String.eqb (file_name f) "") eqn:En; [discriminate|].
    destruct (N.eqb (file_size f) 0) eqn:Es; [discriminate|].
    destruct (file_is_image f) eqn:Ei; simpl in H; [|discriminate].
    injection H as <-. simpl.
    repeat (split; [auto; try discriminate; fail|]).
    right. exists f. split; [reflexivity|]. split; [reflexivity|].
    split; [apply String.eqb_neq, En|].
    split; [apply N.eqb_neq, Es | exact Ei].
  - destruct (String.eqb (Profile.avatar instance) "") eqn:Ea; simpl in H.
    + destruct (p_avatar data) as [f|]; [|discriminate].
      simpl in Eg. apply negb_false_iff in Eg. rewrite Eg in H.
      discriminate.
    + injection H as <-. simpl.
      repeat (split; [auto; try discriminate; fail|]).
      left. split; [reflexivity|]. split; [apply String.eqb_neq, Ea|].
      reflexivity.
Qed.

Lemma profile_form_valid_row_witness :
  exists row,
    ProfileUpdateForm_clean (fw := sample_framework)
      (Profile.mk 1 None "" "")
      (mkProfileData (Some 5) " hello " (Some (mkUploadedFile "me.png" 10 true)))
    = Ok row /\
    Profile.bio row = "hello" /\ Profile.birth_date row = Some 5.
Proof.
  eexists. split; [vm_compute; reflexivity|].
  destruct (profile_form_valid_row sample_framework
              (Profile.mk 1 None "" "")
              (mkProfileData (Some 5) " hello "
                 (Some (mkUploadedFile "me.png" 10 true))) _ eq_refl)
    as (_ & Hd & _ & Hb & _).
  split; [exact Hb | exact Hd].
Defined.

(** X19: an upload that has a name decides alone: when it is not empty and
    is an image it replaces the avatar, whatever the profile had; when it
    is empty or not an image the form is not valid, also when the profile
    has an avatar to fall back on. *)
Theorem profile_form_upload_decides (fw : Framework) (instance : Profile.t)
  (d : Z) (raw_bio b : string) (f : UploadedFile)
  (Hb : CharField_clean true (Some 500%nat) raw_bio = Ok b)
  (Hn : file_name f <> "") :
  (file_size f <> 0%N -> file_is_image f = true ->
   ProfileUpdateForm_clean instance (mkProfileData (Some d) raw_bio (Some f))
   = Ok (Profile.mk (Profile.user instance) (Some d) b
           (storage_save (file_name f)))) /\
  (file_size f = 0%N \/ file_is_image f = false ->
   ProfileUpdateForm_clean instance (mkProfileData (Some d) raw_bio (Some f))
   = Err ValidationError).
Proof.
  unfold ProfileUpdateForm_clean, ImageField_clean.
  cbn [p_birth_date p_bio p_avatar DateField_clean file_given].
  rewrite Hb. apply String.eqb_neq in Hn. rewrite Hn. simpl. split.
  - intros Hs Hi. apply N.eqb_neq in Hs. rewrite Hs, Hi. reflexivity.
  - intros [Hs|Hi].
    + rewrite Hs. reflexivity.
    + rewrite Hi. destruct (N.eqb (file_size f) 0); reflexivity.
Qed.

Lemma profile_form_upload_decides_witness :
  ProfileUpdateForm_clean (fw := sample_framework)
    (Profile.mk 2 (Some 7) "hi" "a.png")
    (mkProfileData (Some 9) "bio" (Some (mkUploadedFile "notes.txt" 10 false)))
  = Err ValidationError.
Proof.
  apply (proj2 (profile_form_upload_decides sample_framework
                  (Profile.mk 2 (Some 7) "hi" "a.png") 9 "bio" "bio"
                  (mkUploadedFile "notes.txt" 10 false) eq_refl
                  ltac:(discriminate))).
  right. reflexivity.
Defined.

(** ** Widgets *)

Lemma attrs_get_set_same (k v : string) (a : Attrs) :
  attrs_get k (attrs_set k v a) = Some v.
Proof.
  induction a as [|[k' v'] t IH]; simpl.
  - rewrite String.eqb_refl. reflexivity.
  - destruct (String.eqb k' k) eqn:E; simpl; rewrite E; auto.
Qed.

Lemma attrs_get_set_other (k k' v : string) (a : Attrs) :
  k' <> k -> attrs_get k' (attrs_set k v a) = attrs_get k' a.
Proof.
  intros Hne. induction a as [|[k0 v0] t IH]; simpl.
  - apply String.eqb_neq in Hne. rewrite String.eqb_sym, Hne. reflexivity.
  - destruct (String.eqb k0 k) eqn:E; simpl.
    + apply String.eqb_eq in E. subst k0.
      apply String.eqb_neq in Hne. rewrite String.eqb_sym, Hne.
      reflexivity.
    + rewrite IH. reflexivity.
Qed.

Lemma field_change_get (name : string) (f : FormField -> FormField)
  (fs fs' : FormFields) :
  field_change name f fs = Some fs' ->
  map fst fs' = map fst fs /\
  forall n, field_get n fs' =
            if String.eqb n name then option_map f (field_get n fs)
            else field_get n fs.
Proof.
  revert fs'. induction fs as [|[m fld] t IH]; simpl; intros fs' H;
    [discriminate|].
  destruct (String.eqb m name) eqn:E.
  - injection H as <-. split; [reflexivity|]. intros n. simpl.
    apply String.eqb_eq in E. subst m.
    rewrite (String.eqb_sym name n).
    destruct (String.eqb n name); reflexivity.
  - destruct (field_change name f t) as [t'|]; [|discriminate].
    injection H as <-. destruct (IH t' eq_refl) as [IHm IHg].
    split; [simpl; rewrite IHm; reflexivity|]. intros n. simpl.
    destruct (String.eqb m n) eqn:En; [|apply IHg].
    apply String.eqb_eq in En. subst n. rewrite E. reflexivity.
Qed.

Lemma field_change_none (name : string) (f : FormField -> FormField)
  (fs : FormFields) :
  field_change name f fs = None <-> field_get name fs = None.
Proof.
  induction fs as [|[m fld] t IH]; simpl; [tauto|].
  destruct (String.eqb m name); [split; discriminate|].
  destruct (field_change name f t); [|tauto].
  split; [discriminate|]. intros H. apply IH in H. discriminate.
Qed.

Lemma field_get_map (g : FormField -> FormField) (fs : FormFields)
  (n : string) :
  field_get n (map (fun nf => (fst nf, g (snd nf))) fs)
  = option_map g (field_get n fs).
Proof.
  induction fs as [|[m fld] t IH]; simpl; [reflexivity|].
  destruct (String.eqb m n); [reflexivity | exact IH].
Qed.

Lemma set_placeholders_none (ps : list (string * string))
  (fs : FormFields) :
  set_placeholders ps fs = None <->
  exists n, In n (map fst ps) /\ field_get n fs = None.
Proof.
  revert fs. induction ps as [|[name text] t IH]; intros fs; simpl.
  - split; [discriminate | intros (n & [] & _)].
  - destruct (field_change name _ fs) as [fs1|] eqn:E; simpl.
    + destruct (field_change_get _ _ _ _ E) as [_ Hg].
      assert (Hnone : forall n, field_get n fs1 = None <->
                                field_get n fs = None).
      { intros n. rewrite Hg. destruct (String.eqb n name);
          [|tauto]. destruct (field_get n fs); simpl; split; congruence. }
      rewrite IH. split.
      * intros (n & Hn & Hf). exists n. split; [right; exact Hn|].
        apply Hnone, Hf.
      * intros (n & [<-|Hn] & Hf).
        -- apply field_change_none with (f := update_attrs
                                                [("placeholder", text)])
             in Hf. simpl in Hf. congruence.
        -- exists n. split; [exact Hn | apply Hnone, Hf].
    + apply field_change_none in E. split; [|reflexivity].
      intros _. exists name. auto.
Qed.

Lemma set_placeholders_get (ps : list (string * string)) :
  NoDup (map fst ps) ->
  forall fs fs', set_placeholders ps fs = Some fs' ->
  map fst fs' = map fst fs /\
  forall n fld, field_get n fs = Some fld ->
    exists fld', field_get n fs' = Some fld' /\
      label fld' = label fld /\
      (forall k, k <> "placeholder" ->
         attrs_get k (widget_attrs fld') = attrs_get k (widget_attrs fld)) /\
      (forall text, In (n, text) ps ->
         attrs_get "placeholder" (widget_attrs fld') = Some text) /\
      (~ In n (map fst ps) -> fld' = fld).
Proof.
  induction ps as [|[name text] t IH]; intros Hnd fs fs' H; simpl in H.
  - injection H as <-. split; [reflexivity|]. intros n fld Hf.
    exists fld. repeat split; auto. intros text [].
  - inversion Hnd as [|? ? Hname Hnd']; subst.
    destruct (field_change name _ fs) as [fs1|] eqn:E; simpl in H;
      [|discriminate].
    destruct (field_change_get _ _ _ _ E) as [Hm1 Hg1].
    destruct (IH Hnd' fs1 fs' H) as [Hm Hg].
    split; [congruence|]. intros n fld Hf.
    specialize (Hg1 n). rewrite Hf in Hg1. simpl in Hg1.
    destruct (String.eqb n name) eqn:En.
    + apply String.eqb_eq in En. subst n.
      destruct (Hg name _ Hg1) as (fld' & Hf' & Hl & Hk & _ & Hsame).
      specialize (Hsame Hname). subst fld'.
      exists (update_attrs [("placeholder", text)] fld).
      split; [exact Hf'|]. split; [reflexivity|]. split; [|split].
      * intros k Hk'. simpl. apply attrs_get_set_other, Hk'.
      * intros text' [[= <-]|Hin].
        -- simpl. apply attrs_get_set_same.
        -- exfalso. apply Hname. apply in_map_iff. exists (name, text').
           auto.
      * intros C. exfalso. apply C. left. reflexivity.
    + destruct (Hg n _ Hg1) as (fld' & Hf' & Hl & Hk & Hp & Hsame).
      exists fld'. split; [exact Hf'|]. split; [exact Hl|].
      split; [exact Hk|]. split.
      * intros text' [[= E1 E2]|Hin]; [|apply Hp, Hin].
        subst. rewrite String.eqb_refl in En. discriminate.
      * intros C. apply Hsame. intros C'. apply C. right. exact C'.
Qed.

Lemma field_change_some (name : string) (f : FormField -> FormField)
  (fs : FormFields) (fld : FormField) :
  field_get name fs = Some fld -> exists fs', field_change name f fs = Some fs'.
Proof.
  intros H. destruct (field_change name f fs) as [fs'|] eqn:E;
    [exists fs'; reflexivity|].
  apply field_change_none in E. congruence.
Qed.

(** X20: the initialiser of the registration form raises a KeyError
    exactly when the form lacks one of the six fields that get a
    placeholder.  Otherwise it keeps the fields, their order and their
    labels; every field of the form, whatever its widget had before, ends
    with the class form-control and autocomplete off; each of the six has
    its placeholder, written before the loop and not undone by it; and
    every other attribute is as it was. *)
Theorem register_form_styles_every_field (fs : FormFields) :
  (UserRegisterForm_init fs = None <->
   exists n, In n (map fst register_placeholders) /\ field_get n fs = None) /\
  (forall fs', UserRegisterForm_init fs = Some fs' ->
     map fst fs' = map fst fs /\
     forall n fld, field_get n fs = Some fld ->
       exists fld', field_get n fs' = Some fld' /\
         label fld' = label fld /\
         attrs_get "class" (widget_attrs fld') = Some "form-control" /\
         attrs_get "autocomplete" (widget_attrs fld') = Some "off" /\
         (forall text, In (n, text) register_placeholders ->
            attrs_get "placeholder" (widget_attrs fld') = Some text) /\
         (~ In n (map fst register_placeholders) ->
            attrs_get "placeholder" (widget_attrs fld')
            = attrs_get "placeholder" (widget_attrs fld)) /\
         (forall k, k <> "placeholder" -> k <> "class" ->
            k <> "autocomplete" ->
            attrs_get k (widget_attrs fld')
            = attrs_get k (widget_attrs fld))).
Proof.
  assert (Hnd : NoDup (map fst register_placeholders)).
  { simpl. repeat constructor; simpl; intuition discriminate. }
  unfold UserRegisterForm_init. split.
  - rewrite <- set_placeholders_none.
    destruct (set_placeholders register_placeholders fs); simpl;
      split; intros C; try discriminate C; reflexivity.
  - intros fs' H.
    destruct (set_placeholders register_placeholders fs) as [fs1|] eqn:E;
      simpl in H; [|discriminate].
    injection H as <-.
    destruct (set_placeholders_get _ Hnd fs fs1 E) as [Hm Hg].
    split.
    + rewrite map_map. simpl. exact Hm.
    + intros n fld Hf.
      destruct (Hg n fld Hf) as (fld1 & Hf1 & Hl & Hk & Hp & Hsame).
      exists (update_attrs [("class", "form-control"); ("autocomplete", "off")]
                fld1).
      split; [rewrite field_get_map, Hf1; reflexivity|].
      split; [exact Hl|]. simpl.
      split; [rewrite attrs_get_set_other by discriminate;
              apply attrs_get_set_same|].
      split; [apply attrs_get_set_same|].
      split; [|split].
      * intros text Hin.
        rewrite !attrs_get_set_other by discriminate. apply Hp, Hin.
      * intros Hno. rewrite !attrs_get_set_other by discriminate.
        rewrite (Hsame Hno). reflexivity.
      * intros k H1 H2 H3. rewrite !attrs_get_set_other by assumption.
        apply Hk, H1.
Qed.

Lemma register_form_styles_every_field_witness :
  exists fs',
    UserRegisterForm_init register_fields = Some fs' /\
    map fst fs' = map fst register_fields /\
    UserRegisterForm_init [("username", plain_field)] = None.
Proof.
  eexists. split; [reflexivity|].
  split.
  - apply (proj2 (register_form_styles_every_field register_fields) _
             eq_refl).
  - apply (proj1 (register_form_styles_every_field
                    [("username", plain_field)])).
    exists "email". split; [simpl; tauto | reflexivity].
Defined.

(** X21: the initialiser of the login form raises a KeyError exactly when
    the form lacks the username or the password field.  Otherwise the
    username field gets its label, its placeholder and the class
    form-control, the password field its placeholder and the class and
    keeps its label, both keep every other attribute, and every other
    field of the form, the captcha among them, is as it was. *)
Theorem login_form_styles_two_fields (fs : FormFields) :
  (UserLoginForm_init fs = None <->
   field_get "username" fs = None \/ field_get "password" fs = None) /\
  (forall fs', UserLoginForm_init fs = Some fs' ->
     map fst fs' = map fst fs /\
     (forall fld, field_get "username" fs = Some fld ->
        exists fld', field_get "username" fs' = Some fld' /\
          label fld' = Some "Логин" /\
          attrs_get "placeholder" (widget_attrs fld')
          = Some "Логин пользователя" /\
          attrs_get "class" (widget_attrs fld') = Some "form-control" /\
          forall k, k <> "placeholder" -> k <> "class" ->
            attrs_get k (widget_attrs fld')
            = attrs_get k (widget_attrs fld)) /\
     (forall fld, field_get "password" fs = Some fld ->
        exists fld', field_get "password" fs' = Some fld' /\
          label fld' = label fld /\
          attrs_get "placeholder" (widget_attrs fld')
          = Some "Пароль пользователя" /\
          attrs_get "class" (widget_attrs fld') = Some "form-control" /\
          forall k, k <> "placeholder" -> k <> "class" ->
            attrs_get k (widget_attrs fld')
            = attrs_get k (widget_attrs fld)) /\
     (forall n, n <> "username" -> n <> "password" ->
        field_get n fs' = field_get n fs)).
Proof.
  unfold UserLoginForm_init.
  destruct (field_change "username"
              (set_attr "placeholder" "Логин пользователя") fs)
    as [fs1|] eqn:E1; simpl.
  2:{ apply field_change_none in E1. split; [tauto | discriminate]. }
  destruct (field_change_get _ _ _ _ E1) as [Hm1 Hg1].
  destruct (field_change "username" (set_attr "class" "form-control") fs1)
    as [fs2|] eqn:E2; simpl.
  2:{ apply field_change_none in E2. rewrite Hg1 in E2. simpl in E2.
      split; [|discriminate].
      destruct (field_get "username" fs); [discriminate | tauto]. }
  destruct (field_change_get _ _ _ _ E2) as [Hm2 Hg2].
  destruct (field_change "password"
              (set_attr "placeholder" "Пароль пользователя") fs2)
    as [fs3|] eqn:E3; simpl.
  2:{ apply field_change_none in E3. rewrite Hg2, Hg1 in E3. simpl in E3.
      split; [tauto | discriminate]. }
  destruct (field_change_get _ _ _ _ E3) as [Hm3 Hg3].
  destruct (field_change "password" (set_attr "class" "form-control") fs3)
    as [fs4|] eqn:E4; simpl.
  2:{ apply field_change_none in E4. rewrite Hg3, Hg2, Hg1 in E4.
      simpl in E4. split; [|discriminate].
      destruct (field_get "password" fs); [discriminate | tauto]. }
  destruct (field_change_get _ _ _ _ E4) as [Hm4 Hg4].
  destruct (field_change "username" (set_label "Логин") fs4)
    as [fs5|] eqn:E5.
  2:{ apply field_change_none in E5.
      rewrite Hg4, Hg3, Hg2, Hg1 in E5. simpl in E5. split; [|discriminate].
      destruct (field_get "username" fs); [discriminate | tauto]. }
  destruct (field_change_get _ _ _ _ E5) as [Hm5 Hg5].
  assert (Hu : field_get "username" fs <> None).
  { intros C. apply (field_change_none "username"
                       (set_attr "placeholder" "Логин пользователя")) in C.
    congruence. }
  assert (Hp : field_get "password" fs <> None).
  { intros C.
    assert (C3 : field_get "password" fs2 = None)
      by (rewrite Hg2, Hg1; simpl; exact C).
    apply (field_change_none "password"
             (set_attr "placeholder" "Пароль пользователя")) in C3.
    congruence. }
  split; [split; [discriminate | intros [C|C]; contradiction]|].
  intros fs' [= <-].
  split; [congruence|]. split; [|split].
  - intros fld Hf. rewrite Hg5, Hg4, Hg3, Hg2, Hg1, Hf. simpl.
    eexists. split; [reflexivity|]. simpl. split; [reflexivity|].
    split; [rewrite attrs_get_set_other by discriminate;
            apply attrs_get_set_same|].
    split; [apply attrs_get_set_same|].
    intros k H1 H2. rewrite !attrs_get_set_other by assumption.
    reflexivity.
  - intros fld Hf. rewrite Hg5, Hg4, Hg3, Hg2, Hg1, Hf. simpl.
    eexists. split; [reflexivity|]. simpl. split; [reflexivity|].
    split; [rewrite attrs_get_set_other by discriminate;
            apply attrs_get_set_same|].
    split; [apply attrs_get_set_same|].
    intros k H1 H2. rewrite !attrs_get_set_other by assumption.
    reflexivity.
  - intros n H1 H2. apply String.eqb_neq in H1, H2.
    rewrite Hg5, Hg4, Hg3, Hg2, Hg1, H1, H2. reflexivity.
Qed.

Lemma login_form_styles_two_fields_witness :
  exists fs',
    UserLoginForm_init login_fields = Some fs' /\
    field_get "recaptcha" fs' = field_get "recaptcha" login_fields /\
    UserLoginForm_init [("username", plain_field)] = None.
Proof.
  eexists. split; [reflexivity|]. split.
  - apply (proj2 (login_form_styles_two_fields login_fields) _ eq_refl);
      discriminate.
  - apply (proj1 (login_form_styles_two_fields
                    [("username", plain_field)])).
    right. reflexivity.
Defined.
